(** * Auto-Quotation: quotation pricing, line items, catalog admin and
      price-list import review

    A shallow embedding of the front-end logic of the quotation tool:

    - [utils/machineUtils.ts]: [findMachineByCode], [getMachinesByCategory],
      [searchMachines];
    - the quotation form, component [App]: the line-item handlers
      ([handleMachineSelect], [removeLineItem], [adjustQuantity],
      [updateQuantityInput]), the discount input ([handleInputChange],
      [setQuickDiscount]) and the computed values ([lineItemDetails],
      [grandSubtotal], [discountAmount], [grandTotal]);
    - the admin panel, component [AdminPanel]: the machine and option
      handlers;
    - [components/PriceListImport.tsx]: [handleFileUpload], [handleConfirm],
      [toggleProduct], [updateProduct], and the paging of the quotation
      history;
    - [components/MachinerySelector.tsx], [components/MachineForm.tsx],
      [components/SettingsPanel.tsx] and [config/api.ts].

    ** Modelling conventions

    - A JavaScript [number] held in component state is a rational ([Qc],
      canonical fractions, so that equality is Leibniz equality).  Rounding
      and overflow of binary64 are outside the model: an equation between
      two values is stated where the code computes both sides by the same
      operations, or on whole numbers within 2^53, where binary64 is exact.
      State only ever receives numbers from JSON (which has no NaN), from
      literals, or from a parsed input passed through [|| default]; [NaN]
      therefore exists only at the parsing boundary, as a value of
      [JS.number].
    - React state setters become explicit state passing; an [async] handler
      that awaits [fetch] is a function of the outcome of the request.
    - A record of the preview list is a JavaScript object used as a map: a
      [gmap string jsval].  Catalog machines and line items are structs.
    - Strings are sequences of bytes, the UTF-8 form of the text.  Built-ins
      whose result depends on tables of the language or of the locale
      ([toLowerCase], [parseFloat], number formatting) are parameters of
      the definitions that call them. *)

From Stdlib Require Import QArith Qcanon Ascii String.
From Stdlib Require Import Qround.
From stdpp Require Import base numbers strings list gmap pretty.

Local Open Scope Qc_scope.
Local Set Warnings "-register-all".

(** ** JavaScript primitives *)

Module JS.

(** An integer literal as a number. *)
Definition num (z : Z) : Qc := Qc_of_Z z.

(** The result of [parseInt] / [parseFloat]: a finite number or [NaN]. *)
Inductive number : Type :=
  | NaN
  | Num (q : Qc).

(** [ToBoolean] on a number: [0] and [NaN] are falsy. *)
Definition truthy (n : number) : bool :=
  match n with
  | NaN => false
  | Num q => negb (bool_decide (q = 0))
  end.

(** [n || d] for a finite default [d]. *)
Definition or_else (n : number) (d : Qc) : Qc :=
  match n with
  | NaN => d
  | Num q => if truthy n then q else d
  end.

(** [Math.max(x, y)] on finite numbers. *)
Definition Math_max (x y : Qc) : Qc :=
  if decide (x ≤ y) then y else x.

(** [o ?? d]: nullish coalescing. *)
Definition nullish {A} (o : option A) (d : A) : A :=
  match o with
  | Some a => a
  | None => d
  end.

(** [o?.f]: optional chaining into a possibly-null field. *)
Definition chain {A B} (o : option A) (f : A → option B) : option B :=
  match o with
  | Some a => f a
  | None => None
  end.

(** [String.prototype.toLowerCase] is a built-in: the definitions that call
    it take it as a parameter, and nothing is assumed about it but what a
    theorem states.  What the language fixes for text of the Basic Latin and
    Latin-1 Supplement blocks (the code points up to U+00FF, which hold the
    Spanish alphabet) is written out below, in the UTF-8 form in which
    strings are held here: such a code point is one byte below 128, or the
    lead byte 194 or 195 followed by one continuation byte in 128..191.
    The capital letters are A..Z (65..90) and, behind the lead byte 195,
    the continuation bytes 128..158 without 151 (U+00C0..U+00DE without the
    multiplication sign); the small letter of a capital is 32 above it, and
    every other code point is its own lower case. *)
Definition capital (after195 : bool) (n : N) : bool :=
  ((65 <=? n) && (n <=? 90) ||
   after195 && (128 <=? n) && (n <=? 158) && negb (n =? 151))%N.

Definition lower_byte (after195 : bool) (a : ascii) : ascii :=
  let n := N_of_ascii a in
  if capital after195 n then ascii_of_N (n + 32) else a.

Definition lead195 (a : ascii) : bool := (N_of_ascii a =? 195)%N.

Fixpoint lower_from (after195 : bool) (s : string) : string :=
  match s with
  | EmptyString => EmptyString
  | String a s' => String (lower_byte after195 a) (lower_from (lead195 a) s')
  end.

(** The lower case of a Latin-1 text. *)
Definition lower_latin1 : string → string := lower_from false.

(** [s] is a text of code points up to U+00FF. *)
Fixpoint latin1_from (pending : bool) (s : string) : bool :=
  match s with
  | EmptyString => negb pending
  | String a s' =>
      let n := N_of_ascii a in
      if pending then ((128 <=? n) && (n <=? 191))%N && latin1_from false s'
      else if (n <? 128)%N then latin1_from false s'
      else ((n =? 194) || (n =? 195))%N && latin1_from true s'
  end.

Definition latin1 : string → bool := latin1_from false.

(** The part of the language's definition of [toLowerCase] that the
    theorems on searching rely on. *)
Definition toLowerCase_latin1 (toLowerCase : string → string) : Prop :=
  ∀ s, latin1 s = true → toLowerCase s = lower_latin1 s.

(** [t] is a prefix of [s]. *)
Fixpoint startsWith (s t : string) : bool :=
  match t, s with
  | EmptyString, _ => true
  | String _ _, EmptyString => false
  | String b t', String a s' => bool_decide (a = b) && startsWith s' t'
  end.

(** [s.includes(t)]: [t] occurs in [s] at some position. *)
Fixpoint includes (s t : string) : bool :=
  startsWith s t ||
  match s with
  | EmptyString => false
  | String _ s' => includes s' t
  end.

(** [s.endsWith(t)]. *)
Fixpoint endsWith (s t : string) : bool :=
  bool_decide (s = t) ||
  match s with
  | EmptyString => false
  | String _ s' => endsWith s' t
  end.

(** JSON values, as delivered by [response.json()]. *)
Inductive jsval : Type :=
  | JNull
  | JBool (b : bool)
  | JNum (q : Qc)
  | JStr (s : string)
  | JArr (l : list jsval)
  | JObj (l : list (string * jsval)).

(** [ToBoolean] on a property read; a missing property is [undefined]. *)
Definition truthy_val (v : option jsval) : bool :=
  match v with
  | None => false
  | Some JNull => false
  | Some (JBool b) => b
  | Some (JNum q) => negb (bool_decide (q = 0))
  | Some (JStr s) => negb (bool_decide (s = EmptyString))
  | Some (JArr _) => true
  | Some (JObj _) => true
  end.

(** [v !== null]: [undefined] is not [null]. *)
Definition not_null (v : option jsval) : bool :=
  match v with
  | Some JNull => false
  | _ => true
  end.

End JS.

(** ** types/index.ts *)

Module Types.

Record Option_ : Type := mkOption {
  opt_id : Z;
  opt_name : string;
  opt_price : Qc;
  opt_description : string;
  opt_active : bool
}.

(** [price] is declared [number]; the catalog may deliver [null] (price
    unknown), which the pricing code guards against with [??]. *)
Record Machine : Type := mkMachine {
  id : Z;
  code : string;
  name : string;
  price : option Qc;
  category : string;
  description : string;
  active : bool;
  model_name : option string;
  product_title : option string;
  price_currency : option string;
  options : option (list Option_);
  availableOptions : option (list Option_)
}.

(** [{ ...m, active: a }] *)
Definition set_active (a : bool) (m : Machine) : Machine :=
  {| id := id m; code := code m; name := name m; price := price m;
     category := category m; description := description m; active := a;
     model_name := model_name m; product_title := product_title m;
     price_currency := price_currency m; options := options m;
     availableOptions := availableOptions m |}.

End Types.

Abbreviation Machine := Types.Machine.

(** ** utils/machineUtils.ts *)

Module MachineUtils.

Definition findMachineByCode (c : string) (machines : list Machine)
  : option Machine :=
  List.find (λ machine, bool_decide (Types.code machine = c)) machines.

Definition getMachinesByCategory (categoryName : string)
    (machines : list Machine) : list Machine :=
  List.filter (λ machine, bool_decide (Types.category machine = categoryName))
    machines.

Section Search.
(** The built-in [String.prototype.toLowerCase]. *)
Variable toLowerCase : string → string.

Definition searchMachines (searchTerm : string) (machines : list Machine)
  : list Machine :=
  let term := toLowerCase searchTerm in
  List.filter
    (λ machine,
       JS.includes (toLowerCase (Types.name machine)) term ||
       JS.includes (toLowerCase (Types.category machine)) term ||
       JS.includes (toLowerCase (Types.code machine)) term)
    machines.
End Search.

End MachineUtils.

(** ** The quotation form (component [App]) *)

Module App.

Record QuotationForm : Type := mkForm {
  clientName : string;
  clientCuit : string;
  clientPhone : string;
  clientEmail : string;
  clientCompany : string;
  clientAddress : string;
  notes : string;
  discountPercent : Qc
}.

Record LineItem : Type := mkLineItem {
  id : string;
  machineCode : string;
  quantity : Qc
}.

(** [{ ...item, quantity: q }] *)
Definition set_quantity (q : Qc) (item : LineItem) : LineItem :=
  {| id := id item; machineCode := machineCode item; quantity := q |}.

(** [{ ...prev, discountPercent: d }] *)
Definition set_discountPercent (d : Qc) (prev : QuotationForm)
  : QuotationForm :=
  {| clientName := clientName prev; clientCuit := clientCuit prev;
     clientPhone := clientPhone prev; clientEmail := clientEmail prev;
     clientCompany := clientCompany prev;
     clientAddress := clientAddress prev; notes := notes prev;
     discountPercent := d |}.


(** *** Form handlers *)

Section FormHandlers.
(** The built-in [parseFloat]. *)
Variable parseFloat : string → JS.number.

End FormHandlers.

Definition setQuickDiscount (pct : Qc) (prev : QuotationForm)
  : QuotationForm :=
  set_discountPercent
    (if bool_decide (discountPercent prev = pct) then 0 else pct) prev.

(** *** Line item handlers: the updaters passed to [setLineItems].
    [now] is the value of [Date.now()]. *)

Definition handleMachineSelect (code : string) (now : Z)
    (prev : list LineItem) : list LineItem :=
  match List.find (λ item, bool_decide (machineCode item = code)) prev with
  | Some existing =>
      List.map
        (λ item,
           if bool_decide (machineCode item = code)
           then set_quantity (quantity item + 1) item
           else item)
        prev
  | None =>
      prev ++ [ {| id := code +:+ "-" +:+ pretty now;
                   machineCode := code;
                   quantity := 1 |} ]
  end.

Definition removeLineItem (i : string) (prev : list LineItem)
  : list LineItem :=
  List.filter (λ item, negb (bool_decide (id item = i))) prev.

Definition adjustQuantity (i : string) (delta : Qc) (prev : list LineItem)
  : list LineItem :=
  List.map
    (λ item,
       if bool_decide (id item = i)
       then set_quantity (JS.Math_max 1 (quantity item + delta)) item
       else item)
    prev.

Definition updateQuantityInput (i : string) (value : JS.number)
    (prev : list LineItem) : list LineItem :=
  List.map
    (λ item,
       if bool_decide (id item = i)
       then set_quantity (JS.Math_max 1 (JS.or_else value 1)) item
       else item)
    prev.

(** *** Computed values *)

(** [{ ...item, machine, unitPrice, subtotal }]; the spread is kept as the
    field [item]. *)
Record LineItemDetail : Type := mkDetail {
  item : LineItem;
  machine : option Machine;
  unitPrice : Qc;
  subtotal : Qc
}.

Definition lineItemDetails (machines : list Machine)
    (lineItems : list LineItem) : list LineItemDetail :=
  List.map
    (λ item,
       let machine :=
         MachineUtils.findMachineByCode (machineCode item) machines in
       let unitPrice := JS.nullish (JS.chain machine Types.price) 0 in
       let subtotal := unitPrice * quantity item in
       {| item := item; machine := machine;
          unitPrice := unitPrice; subtotal := subtotal |})
    lineItems.

Definition grandSubtotal (machines : list Machine)
    (lineItems : list LineItem) : Qc :=
  List.fold_left (λ sum i, sum + subtotal i)
    (lineItemDetails machines lineItems) 0.

Definition discountAmount (machines : list Machine)
    (lineItems : list LineItem) (form : QuotationForm) : Qc :=
  (grandSubtotal machines lineItems * discountPercent form) / JS.num 100.

Definition grandTotal (machines : list Machine)
    (lineItems : list LineItem) (form : QuotationForm) : Qc :=
  grandSubtotal machines lineItems - discountAmount machines lineItems form.

(** [lineItems[lineItems.length - 1]?.machineCode ?? ''], the machine the
    selector is told is selected. *)
Definition selectedMachine (lineItems : list LineItem) : string :=
  JS.nullish (JS.chain (last lineItems) (λ it, Some (machineCode it)))
    EmptyString.

(** *** Submit *)

(** The JSON body of the generate-quote request. *)
Record QuotationData : Type := mkQuotationData {
  qd_machineCode : string;
  qd_clientCuit : string;
  qd_clientName : string;
  qd_clientPhone : string;
  qd_clientEmail : string;
  qd_clientCompany : string;
  qd_notes : string;
  qd_applyDiscount : bool
}.

(** What the request yields: an [ok] response (with the object URL made of
    its blob), a response that is not [ok], or a thrown error. *)
Inductive SubmitOutcome : Type :=
  | SubmitOk (objectUrl : string)
  | SubmitNotOk
  | SubmitThrown.

Record SubmitState : Type := mkSubmitState {
  isGenerating : bool;
  lastQuotation : option string
}.

(** The state after [handleSubmit], the request it sent and the alert it
    raised, if any. *)
Record SubmitResult : Type := mkSubmitResult {
  after : SubmitState;
  request : option QuotationData;
  alert : option string
}.

(** The line feed of the template strings. *)
Definition nl : string := String (ascii_of_nat 10) EmptyString.

(** [cond && text] as an element of the notes array. *)
Definition and_text (cond : bool) (text : string) : option string :=
  if cond then Some text else None.

(** [s && text] for a string [s]: the empty string is falsy and is itself
    the value. *)
Definition str_and_text (s text : string) : option string :=
  if bool_decide (s = EmptyString) then Some EmptyString else Some text.

(** [.filter(Boolean)]: [false] and the empty string go. *)
Definition filter_Boolean (l : list (option string)) : list string :=
  omap (λ o, match o with
             | Some s => if bool_decide (s = EmptyString) then None else Some s
             | None => None
             end) l.

Section Submit.
(** Number formatting: [String(x)] inside a template string and
    [x.toLocaleString()]. *)
Variable toString : Qc → string.
Variable toLocaleString : Qc → string.

Definition extraLines (details : list LineItemDetail) : string :=
  String.concat nl
    (imap (λ idx i,
             pretty (idx + 1)%nat +:+ ". " +:+
             JS.nullish (JS.chain (machine i) (λ m, Some (Types.name m)))
               (machineCode (item i)) +:+
             " (" +:+ machineCode (item i) +:+ ") x" +:+
             toString (quantity (item i)) +:+ " — $" +:+
             toLocaleString (subtotal i))
          details).

Definition notesText (details : list LineItemDetail) (form : QuotationForm)
  : string :=
  String.concat nl
    (filter_Boolean
       [ and_text (bool_decide (1 < length details)%nat)
           ("Productos cotizados:" +:+ nl +:+ extraLines details);
         str_and_text (clientAddress form)
           ("Domicilio: " +:+ clientAddress form);
         and_text (bool_decide (0 < discountPercent form))
           ("Descuento global: " +:+ toString (discountPercent form) +:+ "%");
         str_and_text (notes form) ("Observaciones: " +:+ notes form) ]).

Definition handleSubmit (machines : list Machine)
    (lineItems : list LineItem) (form : QuotationForm)
    (server : QuotationData → SubmitOutcome) (st : SubmitState)
  : SubmitResult :=
  match lineItemDetails machines lineItems with
  | [] =>
      {| after := st; request := None;
         alert := Some
           "Seleccioná al menos una máquina antes de generar la cotización." |}
  | (primaryItem :: _) as details =>
      let quotationData :=
        {| qd_machineCode := machineCode (item primaryItem);
           qd_clientCuit := clientCuit form;
           qd_clientName := clientName form;
           qd_clientPhone := clientPhone form;
           qd_clientEmail := clientEmail form;
           qd_clientCompany := clientCompany form;
           qd_notes := notesText details form;
           qd_applyDiscount := bool_decide (0 < discountPercent form) |} in
      match server quotationData with
      | SubmitOk objectUrl =>
          {| after := {| isGenerating := false;
                         lastQuotation := Some objectUrl |};
             request := Some quotationData; alert := None |}
      | _ =>
          {| after := {| isGenerating := false;
                         lastQuotation := lastQuotation st |};
             request := Some quotationData;
             alert := Some
               "Error al generar la cotización. Por favor, inténtalo de nuevo." |}
      end
  end.
End Submit.

End App.

(** ** The admin panel (component [AdminPanel]): deactivating a machine *)

Module AdminPanel.

Inductive NotificationType : Type := success | error.

Record Notification : Type := mkNotification {
  type : option NotificationType;
  message : string
}.

Record State : Type := mkState {
  machines : list Machine;
  options : list Types.Option_;
  notification : Notification
}.

(** What [await fetch(...)] yields: a response with [ok] set or not, or a
    thrown error. *)
Inductive FetchOutcome : Type :=
  | ResponseOk
  | ResponseNotOk
  | Thrown.

(** [showNotification]; the timer that clears the banner three seconds
    later is left out. *)
Definition showNotification (msg : string) (t : NotificationType)
    (st : State) : State :=
  {| machines := machines st; options := options st;
     notification := {| type := Some t; message := msg |} |}.

Definition setMachines (f : list Machine → list Machine) (st : State)
  : State :=
  {| machines := f (machines st); options := options st;
     notification := notification st |}.

(** [confirmed] is the answer to the [confirm(...)] dialog. *)
Definition handleDeleteMachine (machineId : Z) (confirmed : bool)
    (outcome : FetchOutcome) (st : State) : State :=
  if negb confirmed then st
  else
    match outcome with
    | ResponseOk =>
        showNotification "Máquina desactivada exitosamente" success
          (setMachines
             (λ prev,
                List.map
                  (λ m, if bool_decide (Types.id m = machineId)
                        then Types.set_active false m else m)
                  prev)
             st)
    | ResponseNotOk =>
        showNotification "Error al desactivar la máquina" error st
    | Thrown => showNotification "Error de conexión" error st
    end.

(** *** Machines *)

Definition handleCreateMachine (machine : Machine) (st : State) : State :=
  showNotification "Máquina creada exitosamente" success
    (setMachines (λ prev, machine :: prev) st).

Definition handleUpdateMachine (updatedMachine : Machine) (st : State)
  : State :=
  showNotification "Máquina actualizada exitosamente" success
    (setMachines
       (λ prev,
          List.map
            (λ m, if bool_decide (Types.id m = Types.id updatedMachine)
                  then updatedMachine else m)
            prev)
       st).

(** *** Options *)

Record OptionForm : Type := mkOptionForm {
  of_name : string;
  of_price : string;
  of_description : string
}.

(** The state of the option editor. *)
Record OptionEditor : Type := mkOptionEditor {
  showOptionForm : bool;
  editingOption : option Types.Option_;
  optionForm : OptionForm
}.

Definition emptyOptionForm : OptionForm :=
  {| of_name := EmptyString; of_price := EmptyString;
     of_description := EmptyString |}.

(** The JSON body of the create and update requests; [parseFloat] may
    yield [NaN]. *)
Record OptionBody : Type := mkOptionBody {
  ob_name : string;
  ob_price : JS.number;
  ob_description : string
}.

(** What the request yields: the saved option of an [ok] response, a
    response that is not [ok], or a thrown error. *)
Inductive OptionResponse : Type :=
  | OptionOk (saved : Types.Option_)
  | OptionNotOk
  | OptionThrown.

Definition setOptions (f : list Types.Option_ → list Types.Option_)
    (st : State) : State :=
  {| machines := machines st; options := f (options st);
     notification := notification st |}.

(** [{ ...opt, active: a }] *)
Definition set_option_active (a : bool) (opt : Types.Option_)
  : Types.Option_ :=
  {| Types.opt_id := Types.opt_id opt; Types.opt_name := Types.opt_name opt;
     Types.opt_price := Types.opt_price opt;
     Types.opt_description := Types.opt_description opt;
     Types.opt_active := a |}.

Section OptionHandlers.
Variable parseFloat : string → JS.number.

Definition optionBody (f : OptionForm) : OptionBody :=
  {| ob_name := of_name f; ob_price := parseFloat (of_price f);
     ob_description := of_description f |}.

(** [!optionForm.name || !optionForm.price] *)
Definition optionFormIncomplete (f : OptionForm) : bool :=
  bool_decide (of_name f = EmptyString) ||
  bool_decide (of_price f = EmptyString).

Definition handleCreateOption (server : OptionBody → OptionResponse)
    (ed : OptionEditor) (st : State)
  : State * OptionEditor * option OptionBody :=
  if optionFormIncomplete (optionForm ed) then (st, ed, None)
  else
    let body := optionBody (optionForm ed) in
    match server body with
    | OptionOk newOption =>
        (showNotification "Opcional creado exitosamente" success
           (setOptions (λ prev, newOption :: prev) st),
         {| showOptionForm := false; editingOption := editingOption ed;
            optionForm := emptyOptionForm |},
         Some body)
    | OptionNotOk =>
        (showNotification "Error al crear el opcional" error st, ed,
         Some body)
    | OptionThrown =>
        (showNotification "Error de conexión" error st, ed, Some body)
    end.

Definition handleUpdateOption (optionId : Z)
    (server : OptionBody → OptionResponse)
    (ed : OptionEditor) (st : State)
  : State * OptionEditor * option OptionBody :=
  if optionFormIncomplete (optionForm ed) then (st, ed, None)
  else
    let body := optionBody (optionForm ed) in
    match server body with
    | OptionOk updatedOption =>
        (showNotification "Opcional actualizado exitosamente" success
           (setOptions
              (λ prev,
                 List.map
                   (λ opt, if bool_decide (Types.opt_id opt = optionId)
                           then updatedOption else opt)
                   prev)
              st),
         {| showOptionForm := false; editingOption := None;
            optionForm := emptyOptionForm |},
         Some body)
    | OptionNotOk =>
        (showNotification "Error al actualizar el opcional" error st, ed,
         Some body)
    | OptionThrown =>
        (showNotification "Error de conexión" error st, ed, Some body)
    end.
End OptionHandlers.

Definition handleDeleteOption (optionId : Z) (confirmed : bool)
    (outcome : FetchOutcome) (st : State) : State :=
  if negb confirmed then st
  else
    match outcome with
    | ResponseOk =>
        showNotification "Opcional desactivado exitosamente" success
          (setOptions
             (λ prev,
                List.map
                  (λ opt, if bool_decide (Types.opt_id opt = optionId)
                          then set_option_active false opt else opt)
                  prev)
             st)
    | ResponseNotOk =>
        showNotification "Error al desactivar el opcional" error st
    | Thrown => showNotification "Error de conexión" error st
    end.

Definition cancelOptionForm (ed : OptionEditor) : OptionEditor :=
  {| showOptionForm := false; editingOption := None;
     optionForm := emptyOptionForm |}.

End AdminPanel.

(** ** components/PriceListImport.tsx: preview and confirm *)

Module PriceListImport.

(** A product of the preview list: the parsed fields plus the UI state
    [_selected] and [_expanded]. *)
Abbreviation ParsedProduct := (gmap string JS.jsval).

Record ParsedCondition : Type := mkCondition {
  cond_name : string;
  discount_percent : Qc;
  cond_description : string;
  sort_order : Z
}.

Record PreviewData : Type := mkPreview {
  pv_products : list ParsedProduct;
  payment_conditions : list ParsedCondition;
  total_products : Z;
  total_with_price : Z
}.

Record ConfirmResult : Type := mkResult {
  imported : Z;
  updated : Z;
  errors : list string;
  payment_conditions_imported : Z
}.

Inductive Step : Type := idle | loading | preview_step | confirming | done.

Record State : Type := mkState {
  step : Step;
  preview : option PreviewData;
  products : list ParsedProduct;
  conditions : list ParsedCondition;
  replaceExisting : bool;
  result : option ConfirmResult;
  error : option string
}.

Definition setStep (x : Step) (st : State) : State :=
  {| step := x; preview := preview st; products := products st;
     conditions := conditions st; replaceExisting := replaceExisting st;
     result := result st; error := error st |}.

Definition setPreview (x : option PreviewData) (st : State) : State :=
  {| step := step st; preview := x; products := products st;
     conditions := conditions st; replaceExisting := replaceExisting st;
     result := result st; error := error st |}.

Definition setProducts (x : list ParsedProduct) (st : State) : State :=
  {| step := step st; preview := preview st; products := x;
     conditions := conditions st; replaceExisting := replaceExisting st;
     result := result st; error := error st |}.

Definition setConditions (x : list ParsedCondition) (st : State) : State :=
  {| step := step st; preview := preview st; products := products st;
     conditions := x; replaceExisting := replaceExisting st;
     result := result st; error := error st |}.

Definition setResult (x : option ConfirmResult) (st : State) : State :=
  {| step := step st; preview := preview st; products := products st;
     conditions := conditions st; replaceExisting := replaceExisting st;
     result := x; error := error st |}.

Definition setError (x : option string) (st : State) : State :=
  {| step := step st; preview := preview st; products := products st;
     conditions := conditions st; replaceExisting := replaceExisting st;
     result := result st; error := x |}.

(** What awaiting a request and reading its JSON yields: the data of an
    [ok] response, the [detail] of a response that is not [ok], or the
    message of an error thrown on the way. *)
Inductive Response (A : Type) : Type :=
  | Ok (data : A)
  | NotOk (detail : option string)
  | Thrown (message : string).
Arguments Ok {A} data.
Arguments NotOk {A} detail.
Arguments Thrown {A} message.

(** [s || d] on an optional string: [undefined] and the empty string are
    falsy. *)
Definition str_or (s : option string) (d : string) : string :=
  match s with
  | Some x => if bool_decide (x = EmptyString) then d else x
  | None => d
  end.

(** The message that reaches the [catch] block. *)
Definition caught {A} (fallback : string) (r : Response A) : string :=
  match r with
  | Ok _ => EmptyString
  | NotOk detail => str_or detail fallback
  | Thrown message => message
  end.

(** [{ ...p, _selected: p.price !== null, _expanded: false }] *)
Definition review (p : ParsedProduct) : ParsedProduct :=
  <["_expanded" := JS.JBool false]>
    (<["_selected" := JS.JBool (JS.not_null (p !! "price"))]> p).

(** [handleFileUpload], as a function of the file's name and of the answer
    of the preview endpoint. *)
Section Upload.
(** The built-in [String.prototype.toLowerCase]. *)
Variable toLowerCase : string → string.

Definition handleFileUpload (fileName : string)
    (response : Response PreviewData) (st : State) : State :=
  if negb (JS.endsWith (toLowerCase fileName) ".pdf")
  then setError (Some "El archivo debe ser un PDF") st
  else
    let st := setError None (setStep loading st) in
    match response with
    | Ok data =>
        let prods := List.map review (pv_products data) in
        setStep preview_step
          (setConditions (payment_conditions data)
             (setProducts prods (setPreview (Some data) st)))
    | _ =>
        setStep idle
          (setError
             (Some (str_or (Some (caught "Error al procesar el PDF" response))
                           "Error inesperado"))
             st)
    end.
End Upload.

(** [({ _selected, _expanded, ...p }) => p] *)
Definition clean (p : ParsedProduct) : ParsedProduct :=
  delete "_expanded" (delete "_selected" p).

(** The JSON body of the confirm request. *)
Record ConfirmBody : Type := mkBody {
  body_products : list ParsedProduct;
  body_payment_conditions : list ParsedCondition;
  body_replace_existing : bool
}.

Definition selected (p : ParsedProduct) : bool :=
  JS.truthy_val (p !! "_selected").

(** [handleConfirm], as a function of the server (the answer of the
    confirm endpoint to a body).  The result is the new state and the
    request that was sent, if any. *)
Definition handleConfirm (server : ConfirmBody → Response ConfirmResult)
    (st : State) : State * option ConfirmBody :=
  let selectedProducts := List.filter selected (products st) in
  if bool_decide (length selectedProducts = 0%nat)
  then (setError (Some "Seleccioná al menos un producto para importar") st,
        None)
  else
    let st := setError None (setStep confirming st) in
    let cleanProducts := List.map clean selectedProducts in
    let body :=
      {| body_products := cleanProducts;
         body_payment_conditions := conditions st;
         body_replace_existing := replaceExisting st |} in
    match server body with
    | Ok res => (setStep done (setResult (Some res) st), Some body)
    | r =>
        (setStep preview_step
           (setError
              (Some (str_or (Some (caught "Error al confirmar importación" r))
                            "Error inesperado"))
              st),
         Some body)
    end.

(** [prev.map((p, i) => i === idx ? { ...p, _selected: !p._selected } : p)] *)
Definition toggleProduct (idx : nat) (st : State) : State :=
  setProducts
    (imap (λ i p, if bool_decide (i = idx)
                  then <["_selected" := JS.JBool (negb (selected p))]> p
                  else p)
          (products st))
    st.

(** [prev.map((p, i) => i === idx ? { ...p, _expanded: !p._expanded } : p)] *)
Definition toggleExpand (idx : nat) (st : State) : State :=
  setProducts
    (imap (λ i p, if bool_decide (i = idx)
                  then <["_expanded" :=
                          JS.JBool (negb (JS.truthy_val (p !! "_expanded")))]> p
                  else p)
          (products st))
    st.

(** [prev.map((p, i) => i === idx ? { ...p, [field]: value } : p)] *)
Definition updateProduct (idx : nat) (field : string) (value : JS.jsval)
    (st : State) : State :=
  setProducts
    (imap (λ i p, if bool_decide (i = idx) then <[field := value]> p else p)
          (products st))
    st.

(** [parseFloat(e.target.value) || null], the value the price input
    passes to [updateProduct]. *)
Definition priceInput (parsed : JS.number) : JS.jsval :=
  match parsed with
  | JS.NaN => JS.JNull
  | JS.Num q => if JS.truthy parsed then JS.JNum q else JS.JNull
  end.

Definition reset (st : State) : State :=
  {| step := idle; preview := None; products := []; conditions := [];
     replaceExisting := replaceExisting st; result := None; error := None |}.

(** [products.filter(p => p._selected).length] *)
Definition selectedCount (st : State) : nat :=
  length (List.filter selected (products st)).

(** The [disabled] attribute of the confirm button. *)
Definition confirmDisabled (st : State) : bool :=
  match step st with confirming => true | _ => false end ||
  bool_decide (selectedCount st = 0%nat).

End PriceListImport.

(** ** components/MachinerySelector.tsx *)

Module MachinerySelector.

(** The property names every object literal inherits from
    [Object.prototype]; reading one of them off [{}] yields a function (or,
    for [__proto__], the prototype itself), which is truthy and has no
    [push]. *)
Definition inherited (key : string) : bool :=
  bool_decide
    (key ∈ [ "constructor"; "__proto__"; "hasOwnProperty"; "isPrototypeOf";
             "propertyIsEnumerable"; "toLocaleString"; "toString";
             "valueOf"; "__defineGetter__"; "__defineSetter__";
             "__lookupGetter__"; "__lookupSetter__" ]%string).

Section Filter.
(** The built-in [String.prototype.toLowerCase]. *)
Variable toLowerCase : string → string.

Definition filteredMachines (searchTerm : string) (machines : list Machine)
  : list Machine :=
  if negb (bool_decide (searchTerm = EmptyString))
  then
    List.filter
      (λ machine,
         JS.includes (toLowerCase (Types.name machine))
           (toLowerCase searchTerm) ||
         JS.includes (toLowerCase (Types.category machine))
           (toLowerCase searchTerm) ||
         JS.includes (toLowerCase (Types.code machine))
           (toLowerCase searchTerm))
      machines
  else machines.
End Filter.

(** One round of the [forEach]: [if (!cats[c]) cats[c] = []] and
    [cats[c].push(machine)].  [None] is the [TypeError] of calling a [push]
    that is not there. *)
Definition group_step (cats : option (gmap string (list Machine)))
    (machine : Machine) : option (gmap string (list Machine)) :=
  match cats with
  | None => None
  | Some cats =>
      let c := Types.category machine in
      match cats !! c with
      | Some group => Some (<[c := group ++ [machine]]> cats)
      | None =>
          if inherited c then None else Some (<[c := [machine]]> cats)
      end
  end.

Definition categories (filtered : list Machine)
  : option (gmap string (list Machine)) :=
  List.fold_left group_step filtered (Some ∅).

(** [prev[category]] on the record of expanded flags. *)
Definition read_flag (flags : gmap string bool) (category : string) : bool :=
  match flags !! category with
  | Some b => b
  | None => inherited category
  end.

Definition toggleCategory (category : string) (prev : gmap string bool)
  : gmap string bool :=
  <[category := negb (read_flag prev category)]> prev.

(** The code handed to [onMachineSelect], if it is called. *)
Definition handleMachineClick (isMultipleSelection : bool)
    (selectedMachine machineCode : string) : option string :=
  if isMultipleSelection then Some machineCode
  else if negb (bool_decide (selectedMachine = machineCode))
       then Some machineCode
       else None.

Definition isSelected (isMultipleSelection : bool)
    (isMachineSelected : option (string → bool))
    (selectedMachine machineCode : string) : bool :=
  match isMultipleSelection, isMachineSelected with
  | true, Some f => f machineCode
  | _, _ => bool_decide (selectedMachine = machineCode)
  end.

End MachinerySelector.

(** The selector as the quotation form mounts it: single selection, the
    last line item's machine as the selected one, [handleMachineSelect] as
    the callback. *)
Definition selectorClick (machineCode : string) (now : Z)
    (lineItems : list App.LineItem) : list App.LineItem :=
  match MachinerySelector.handleMachineClick false
          (App.selectedMachine lineItems) machineCode with
  | Some c => App.handleMachineSelect c now lineItems
  | None => lineItems
  end.

(** ** components/MachineForm.tsx *)

Module MachineForm.

Definition handleOptionToggle (optionId : Z) (prev : list Z) : list Z :=
  if bool_decide (optionId ∈ prev)
  then List.filter (λ i, negb (bool_decide (i = optionId))) prev
  else prev ++ [optionId].

End MachineForm.

(** ** components/SettingsPanel.tsx *)

Module SettingsPanel.

Section ManualRate.
Variable parseFloat : string → JS.number.

(** The guard of [handleSaveManualRate]: the error it notifies, or the rate
    of the request it sends. *)
Definition manualRateRequest (manualRate : string) : string + Qc :=
  match parseFloat manualRate with
  | JS.NaN => inl "Ingresá un valor válido"%string
  | JS.Num val =>
      if negb (JS.truthy (JS.Num val)) || bool_decide (val ≤ 0)
      then inl "Ingresá un valor válido"%string
      else inr val
  end.
End ManualRate.

End SettingsPanel.

(** ** The quotation history (component [QuotationsPanel]): paging *)

Module QuotationsPanel.







End QuotationsPanel.

(** ** config/api.ts: the admin token *)

Module Api.

(** [localStorage], as a map from keys to strings. *)
Definition getAuthToken (localStorage : gmap string string) : option string :=
  localStorage !! "admin_token".

Definition setAuthToken (token : string) (localStorage : gmap string string)
  : gmap string string :=
  <["admin_token" := token]> localStorage.

Definition removeAuthToken (localStorage : gmap string string)
  : gmap string string :=
  delete "admin_token" localStorage.

Definition getAuthHeaders (localStorage : gmap string string)
  : gmap string string :=
  match getAuthToken localStorage with
  | Some token =>
      if bool_decide (token = EmptyString) then ∅
      else {[ "Authorization" := "Bearer " +:+ token ]}
  | None => ∅
  end.

End Api.

(** ** Specification vocabulary *)

Module Spec.

(** Sigma over a list of numbers, added up from 0 in the order of the
    list. *)
Definition sum (l : list Qc) : Qc := List.fold_left Qcplus l 0.

(** [term] occurs in [field]. *)
Definition contains (field term : string) : Prop :=
  ∃ pre post : string, field = pre +:+ term +:+ post.

(** The letters of Latin-1 that come in two cases: the capitals, and the
    small letters in the same order.  An accented letter is two bytes, the
    lead byte 195 and a second byte. *)
Definition basic_capitals : string := "ABCDEFGHIJKLMNOPQRSTUVWXYZ".
Definition basic_smalls : string := "abcdefghijklmnopqrstuvwxyz".
Definition accented_capitals : string := "ÀÁÂÃÄÅÆÇÈÉÊËÌÍÎÏÐÑÒÓÔÕÖØÙÚÛÜÝÞ".
Definition accented_smalls : string := "àáâãäåæçèéêëìíîïðñòóôõöøùúûüýþ".

(** [a] and [b] stand at the same place in two lists of letters. *)
Definition paired (capitals smalls : string) (a b : ascii) : bool :=
  existsb (λ p, Ascii.eqb p.1 a && Ascii.eqb p.2 b)
    (zip (list_ascii_of_string capitals) (list_ascii_of_string smalls)).

(** Two bytes in the same position of two Latin-1 texts stand for the same
    letter: they are equal, or one is the capital and the other the small
    form of one letter.  The second bytes of the accented letters count
    behind the lead byte 195 only. *)
Definition same_letter (after195 : bool) (a b : ascii) : bool :=
  Ascii.eqb a b ||
  paired basic_capitals basic_smalls a b ||
  paired basic_capitals basic_smalls b a ||
  after195 && (paired accented_capitals accented_smalls a b ||
               paired accented_capitals accented_smalls b a).

(** Two texts are the same letter by letter; [after195] says whether the
    byte before was the lead byte 195. *)
Fixpoint same_from (after195 : bool) (s t : string) : bool :=
  match s, t with
  | EmptyString, EmptyString => true
  | String a s', String b t' =>
      same_letter after195 a b &&
      same_from (Ascii.eqb a (ascii_of_nat 195)) s' t'
  | _, _ => false
  end.

(** Two Latin-1 texts are equal up to the case of their letters. *)
Definition same_text : string → string → bool := same_from false.

(** [field] contains [term] up to the case of letters: some substring of
    [field] is [term] letter by letter, capital or small. *)
Definition contains_ci (field term : string) : Prop :=
  ∃ pre mid post : string,
    field = pre +:+ mid +:+ post ∧ same_text mid term = true.


(** The same criterion in terms of the built-in: the lower case of the
    name, category or code contains the lower case of the term. *)
Definition matches_lowered (toLowerCase : string → string) (term : string)
    (m : Machine) : Prop :=
  contains (toLowerCase (Types.name m)) (toLowerCase term) ∨
  contains (toLowerCase (Types.category m)) (toLowerCase term) ∨
  contains (toLowerCase (Types.code m)) (toLowerCase term).


(** The unit price the catalog gives a machine code: the price of the first
    machine of that code, and 0 when there is none or its price is null. *)
Fixpoint catalog_price (machines : list Machine) (c : string) : Qc :=
  match machines with
  | [] => 0
  | m :: rest =>
      if bool_decide (Types.code m = c)
      then match Types.price m with
           | Some p => p
           | None => 0
           end
      else catalog_price rest c
  end.

(** Data-model invariant of a machine: its price is unknown or not
    negative. *)
Definition valid_machine (m : Machine) : Prop :=
  match Types.price m with
  | Some p => 0 ≤ p
  | None => True
  end.

(** Data-model invariant of a line item: its quantity is at least one. *)
Definition valid_item (it : App.LineItem) : Prop := 1 ≤ App.quantity it.

(** The line-item lists that the handlers can produce, starting from the
    empty quotation. *)
Inductive reachable : list App.LineItem → Prop :=
  | reach_empty : reachable []
  | reach_select code now prev :
      reachable prev → reachable (App.handleMachineSelect code now prev)
  | reach_remove i prev :
      reachable prev → reachable (App.removeLineItem i prev)
  | reach_adjust i delta prev :
      reachable prev → reachable (App.adjustQuantity i delta prev)
  | reach_update i value prev :
      reachable prev → reachable (App.updateQuantityInput i value prev).

(** The catalog and the line items of the end-to-end example. *)
Definition machine_of (i : Z) (c : string) (p : option Qc) : Machine :=
  {| Types.id := i; Types.code := c; Types.name := c; Types.price := p;
     Types.category := "Tolvas"; Types.description := EmptyString;
     Types.active := true; Types.model_name := None;
     Types.product_title := None; Types.price_currency := None;
     Types.options := None; Types.availableOptions := None |}.

Definition example_catalog : list Machine :=
  [ machine_of 1 "X1" (Some (JS.num 1000));
    machine_of 2 "X2" (Some (JS.num 500)) ].

Definition example_items : list App.LineItem :=
  [ {| App.id := "X1-1700000000000"; App.machineCode := "X1";
       App.quantity := JS.num 2 |};
    {| App.id := "X2-1700000000001"; App.machineCode := "X2";
       App.quantity := JS.num 1 |} ].

Definition form_with (d : Qc) : App.QuotationForm :=
  {| App.clientName := EmptyString; App.clientCuit := EmptyString;
     App.clientPhone := EmptyString; App.clientEmail := EmptyString;
     App.clientCompany := EmptyString; App.clientAddress := EmptyString;
     App.notes := EmptyString; App.discountPercent := d |}.

(** Two parsed products, one of them without a price. *)
Definition priced_product : gmap string JS.jsval :=
  <["code" := JS.JStr "ATF-14"]>
    (<["name" := JS.JStr "Tolva ATF 14"]>
       (<["price" := JS.JNum (JS.num 25000)]>
          (<["price_currency" := JS.JStr "USD"]> ∅))).

Definition unpriced_product : gmap string JS.jsval :=
  <["code" := JS.JStr "SFT-8"]>
    (<["name" := JS.JStr "Sinfin SFT 8"]>
       (<["price" := JS.JNull]>
          (<["price_currency" := JS.JStr "USD"]> ∅))).

Definition example_preview : PriceListImport.PreviewData :=
  {| PriceListImport.pv_products := [priced_product; unpriced_product];
     PriceListImport.payment_conditions :=
       [ {| PriceListImport.cond_name := "Contado";
            PriceListImport.discount_percent := JS.num 0;
            PriceListImport.cond_description := EmptyString;
            PriceListImport.sort_order := 0 |} ];
     PriceListImport.total_products := 2;
     PriceListImport.total_with_price := 1 |}.

Definition initial_import : PriceListImport.State :=
  {| PriceListImport.step := PriceListImport.idle;
     PriceListImport.preview := None;
     PriceListImport.products := [];
     PriceListImport.conditions := [];
     PriceListImport.replaceExisting := true;
     PriceListImport.result := None;
     PriceListImport.error := None |}.

(** A server that accepts every batch. *)
Definition accepting_server (body : PriceListImport.ConfirmBody)
  : PriceListImport.Response PriceListImport.ConfirmResult :=
  PriceListImport.Ok
    {| PriceListImport.imported :=
         Z.of_nat (length (PriceListImport.body_products body));
       PriceListImport.updated := 0;
       PriceListImport.errors := [];
       PriceListImport.payment_conditions_imported :=
         Z.of_nat (length (PriceListImport.body_payment_conditions body)) |}.

End Spec.

(** ** Further vocabulary and sample data *)

Module Aux.

(** What [cats[c]] holds after grouping [l]: the machines of category [c],
    when there are any. *)
Definition group_of (c : string) (l : list Machine) : option (list Machine) :=
  match MachineUtils.getMachinesByCategory c l with
  | [] => None
  | g => Some g
  end.

(** No two line items are of the same machine. *)
Definition distinct_machines (lineItems : list App.LineItem) : Prop :=
  NoDup (App.machineCode <$> lineItems).

(** An entry of the notes, there when [cond] holds. *)
Definition entry (cond : bool) (text : string) : list string :=
  if cond then [text] else [].

Section Notes.
Variable toString : Qc → string.
Variable toLocaleString : Qc → string.

(** The line that the notes give the line item at index [k]: its number,
    the name of its machine (its code when the catalog does not have it),
    its code, its quantity and its subtotal. *)
Definition product_line (machines : list Machine) (k : nat)
    (it : App.LineItem) : string :=
  pretty (k + 1)%nat +:+ ". " +:+
  match MachineUtils.findMachineByCode (App.machineCode it) machines with
  | Some m => Types.name m
  | None => App.machineCode it
  end +:+
  " (" +:+ App.machineCode it +:+ ") x" +:+
  toString (App.quantity it) +:+ " — $" +:+
  toLocaleString
    (Spec.catalog_price machines (App.machineCode it) * App.quantity it).

(** The notes of a request: the entries that are there, one per line. *)
Definition expected_notes (machines : list Machine)
    (lineItems : list App.LineItem) (form : App.QuotationForm) : string :=
  String.concat App.nl
    (entry (bool_decide (1 < length lineItems)%nat)
       ("Productos cotizados:" +:+ App.nl +:+
        String.concat App.nl (imap (product_line machines) lineItems)) ++
     entry (negb (bool_decide (App.clientAddress form = EmptyString)))
       ("Domicilio: " +:+ App.clientAddress form) ++
     entry (bool_decide (0 < App.discountPercent form))
       ("Descuento global: " +:+ toString (App.discountPercent form) +:+ "%") ++
     entry (negb (bool_decide (App.notes form = EmptyString)))
       ("Observaciones: " +:+ App.notes form)).
End Notes.

(** A generate-quote endpoint that answers with a PDF. *)
Definition pdf_server (q : App.QuotationData) : App.SubmitOutcome :=
  App.SubmitOk ("blob:" +:+ App.qd_machineCode q).

Definition idle_submit : App.SubmitState :=
  {| App.isGenerating := false; App.lastQuotation := None |}.

Definition empty_admin : AdminPanel.State :=
  {| AdminPanel.machines := []; AdminPanel.options := [];
     AdminPanel.notification :=
       {| AdminPanel.type := None; AdminPanel.message := EmptyString |} |}.

Definition example_admin : AdminPanel.State :=
  {| AdminPanel.machines := Spec.example_catalog; AdminPanel.options := [];
     AdminPanel.notification :=
       {| AdminPanel.type := None; AdminPanel.message := EmptyString |} |}.

Definition example_option : Types.Option_ :=
  {| Types.opt_id := 4; Types.opt_name := "Balanza";
     Types.opt_price := JS.num 1200; Types.opt_description := EmptyString;
     Types.opt_active := true |}.

(** An options endpoint that answers with the option as saved under id 5. *)
Definition option_server (b : AdminPanel.OptionBody)
  : AdminPanel.OptionResponse :=
  AdminPanel.OptionOk
    {| Types.opt_id := 5; Types.opt_name := AdminPanel.ob_name b;
       Types.opt_price :=
         match AdminPanel.ob_price b with
         | JS.Num q => q
         | JS.NaN => 0
         end;
       Types.opt_description := AdminPanel.ob_description b;
       Types.opt_active := true |}.

Definition blank_editor : AdminPanel.OptionEditor :=
  {| AdminPanel.showOptionForm := true; AdminPanel.editingOption := None;
     AdminPanel.optionForm := AdminPanel.emptyOptionForm |}.

Definition filled_editor : AdminPanel.OptionEditor :=
  {| AdminPanel.showOptionForm := true; AdminPanel.editingOption := None;
     AdminPanel.optionForm :=
       {| AdminPanel.of_name := "Lona"; AdminPanel.of_price := "350";
          AdminPanel.of_description := EmptyString |} |}.

(** A server that rejects every batch, with a detail message. *)
Definition rejecting_server (body : PriceListImport.ConfirmBody)
  : PriceListImport.Response PriceListImport.ConfirmResult :=
  PriceListImport.NotOk (Some "Lista inválida"%string).

(** The import right after the sample preview loaded. *)
Definition loaded_import : PriceListImport.State :=
  PriceListImport.handleFileUpload JS.lower_latin1 "lista.pdf"
    (PriceListImport.Ok Spec.example_preview) Spec.initial_import.

(** Whether the byte before the end of [s] is the lead byte 195; [q] when
    [s] is empty. *)
Fixpoint ends195 (q : bool) (s : string) : bool :=
  match s with
  | EmptyString => q
  | String a s' => ends195 (JS.lead195 a) s'
  end.

(** The first byte of [s] is no continuation byte. *)
Definition head_plain (s : string) : bool :=
  match s with
  | EmptyString => true
  | String a _ =>
      negb ((128 <=? N_of_ascii a) && (N_of_ascii a <=? 191))%N
  end.

(** A catalog with accented names. *)
Definition accented_catalog : list Machine :=
  [ {| Types.id := 11; Types.code := "AC-12"; Types.name := "Acoplado Ñandú";
       Types.price := Some (JS.num 8000); Types.category := "Acoplados";
       Types.description := EmptyString; Types.active := true;
       Types.model_name := None; Types.product_title := None;
       Types.price_currency := None; Types.options := None;
       Types.availableOptions := None |};
    {| Types.id := 12; Types.code := "TV-14"; Types.name := "Tolva ATF-14";
       Types.price := Some (JS.num 9500); Types.category := "Tolvas";
       Types.description := EmptyString; Types.active := true;
       Types.model_name := None; Types.product_title := None;
       Types.price_currency := None; Types.options := None;
       Types.availableOptions := None |} ].

(** A parsed product without the two UI fields. *)
Definition no_ui_fields (p : gmap string JS.jsval) : Prop :=
  p !! "_selected" = None ∧ p !! "_expanded" = None.

End Aux.

(** Closed equations and inequalities between numerals. *)
Ltac qc_eval :=
  first [ apply Qc_is_canon; vm_compute; reflexivity
        | unfold Qcle, Qclt; vm_compute; congruence
        | let H := fresh in
          intros H; apply (f_equal this) in H; vm_compute in H; congruence ].

(** Byte ranges: boolean tests on [N] into arithmetic facts. *)
Ltac bytes :=
  unfold JS.capital in *;
  repeat match goal with
         | H : _ = true |- _ =>
             first [ apply andb_true_iff in H as [? ?]
                   | apply orb_true_iff in H
                   | apply negb_true_iff in H
                   | apply N.leb_le in H
                   | apply N.ltb_lt in H
                   | apply N.eqb_eq in H ]
         | H : _ = false |- _ =>
             first [ apply andb_false_iff in H
                   | apply orb_false_iff in H as [? ?]
                   | apply negb_false_iff in H
                   | apply N.leb_gt in H
                   | apply N.ltb_ge in H
                   | apply N.eqb_neq in H ]
         | H : _ ∨ _ |- _ => destruct H
         end.

(** ** Strings *)

Section Strings.

Lemma startsWith_spec (s t : string) :
  JS.startsWith s t = true ↔ ∃ post, s = t +:+ post.
Proof.
  revert s. induction t as [|b t IH]; intros s; simpl.
  - split; [intros _; by exists s | by destruct s].
  - destruct s as [|a s]; simpl.
    + split; [done | intros [post H]; discriminate].
    + rewrite andb_true_iff, bool_decide_eq_true, IH. split.
      * intros [-> [post ->]]. by exists post.
      * intros [post H]. injection H as -> ->. eauto.
Qed.

Lemma includes_spec (s t : string) :
  JS.includes s t = true ↔ ∃ pre post, s = pre +:+ t +:+ post.
Proof.
  induction s as [|a s IH];
    (change (JS.includes ?x t) with
       (JS.startsWith x t ||
        match x with EmptyString => false | String _ s' => JS.includes s' t end));
    rewrite orb_true_iff, startsWith_spec.
  - split.
    + intros [[post H]|?]; [|done]. by exists EmptyString, post.
    + intros [pre [post H]]. left.
      destruct pre; [by exists post | discriminate].
  - rewrite IH. split.
    + intros [[post H]|[pre [post H]]].
      * by exists EmptyString, post.
      * exists (String a pre), post. by subst.
    + intros [pre [post H]]. destruct pre as [|c pre]; simpl in H.
      * left. by exists post.
      * right. injection H as _ ->. by exists pre, post.
Qed.

(** *** Lower case of Latin-1 texts *)

Lemma N_of_ascii_inj (a b : ascii) : N_of_ascii a = N_of_ascii b → a = b.
Proof.
  intros H. rewrite <-(ascii_N_embedding a), <-(ascii_N_embedding b).
  by rewrite H.
Qed.

Lemma lower_byte_N (q : bool) (a : ascii) :
  N_of_ascii (JS.lower_byte q a)
  = if JS.capital q (N_of_ascii a) then (N_of_ascii a + 32)%N
    else N_of_ascii a.
Proof.
  unfold JS.lower_byte. destruct (JS.capital q (N_of_ascii a)) eqn:E; [|done].
  apply N_ascii_embedding. destruct q; simpl in E; bytes; lia.
Qed.

Lemma all_bytes (P : ascii → bool) :
  forallb P (List.map ascii_of_nat (seq 0 256)) = true → ∀ a, P a = true.
Proof.
  intros H a. rewrite forallb_forall in H. apply H.
  rewrite <-(ascii_nat_embedding a). apply in_map, in_seq.
  pose proof (nat_ascii_bounded a). lia.
Qed.

(** The tables of letters and the ranges of the lower case agree: two
    bytes stand for the same letter exactly when they have the same lower
    case. *)
Lemma same_letter_spec (q : bool) (a b : ascii) :
  Spec.same_letter q a b = true ↔ JS.lower_byte q a = JS.lower_byte q b.
Proof.
  assert (Bool.eqb (Spec.same_letter q a b)
            (Ascii.eqb (JS.lower_byte q a) (JS.lower_byte q b)) = true) as H.
  { revert b. apply all_bytes. revert a.
    apply (all_bytes
             (λ a, forallb
                     (λ b, Bool.eqb (Spec.same_letter q a b)
                             (Ascii.eqb (JS.lower_byte q a)
                                (JS.lower_byte q b)))
                     (List.map ascii_of_nat (seq 0 256)))).
    destruct q; vm_compute; reflexivity. }
  apply Bool.eqb_prop in H. rewrite H. apply Ascii.eqb_eq.
Qed.

Lemma lead195_lower_byte (q : bool) (a : ascii) :
  JS.lead195 (JS.lower_byte q a) = JS.lead195 a.
Proof.
  unfold JS.lead195. rewrite lower_byte_N.
  destruct (JS.capital q (N_of_ascii a)) eqn:E; [|done].
  destruct (N_of_ascii a + 32 =? 195)%N eqn:E1,
           (N_of_ascii a =? 195)%N eqn:E2; try done;
    destruct q; simpl in E; bytes; lia.
Qed.

Lemma lead195_eqb (a : ascii) :
  Ascii.eqb a (ascii_of_nat 195) = JS.lead195 a.
Proof.
  revert a.
  assert (∀ a, Bool.eqb (Ascii.eqb a (ascii_of_nat 195)) (JS.lead195 a)
               = true) as H.
  { apply all_bytes. vm_compute. reflexivity. }
  intros a. by apply Bool.eqb_prop.
Qed.

Lemma same_letter_lead195 (q : bool) (a b : ascii) :
  Spec.same_letter q a b = true → JS.lead195 a = JS.lead195 b.
Proof.
  intros H. apply same_letter_spec in H.
  by rewrite <-(lead195_lower_byte q a), H, lead195_lower_byte.
Qed.

Lemma same_from_spec (q : bool) (s t : string) :
  Spec.same_from q s t = true ↔ JS.lower_from q s = JS.lower_from q t.
Proof.
  revert q t. induction s as [|a s IH]; intros q [|b t]; simpl;
    try (split; [done | discriminate]); [done|].
  rewrite lead195_eqb, andb_true_iff, same_letter_spec. split.
  - intros [Hab Hst]. rewrite Hab. f_equal.
    apply same_letter_spec, same_letter_lead195 in Hab.
    rewrite <-Hab. by apply IH.
  - intros [= Hab Hst]. split; [done|]. apply IH.
    apply same_letter_spec, same_letter_lead195 in Hab. by rewrite Hst, Hab.
Qed.

Lemma lower_from_app (q : bool) (s t : string) :
  JS.lower_from q (s +:+ t)
  = JS.lower_from q s +:+ JS.lower_from (Aux.ends195 q s) t.
Proof.
  revert q. induction s as [|a s IH]; intros q; [done|].
  change (String (JS.lower_byte q a) (JS.lower_from (JS.lead195 a) (s +:+ t))
          = String (JS.lower_byte q a)
              (JS.lower_from (JS.lead195 a) s
               +:+ JS.lower_from (Aux.ends195 (JS.lead195 a) s) t)).
  by rewrite IH.
Qed.

Lemma lower_from_split (q : bool) (s a b : string) :
  JS.lower_from q s = a +:+ b →
  ∃ a' b', s = a' +:+ b' ∧ JS.lower_from q a' = a ∧
           JS.lower_from (Aux.ends195 q a') b' = b.
Proof.
  revert q s. induction a as [|c a IH]; intros q s H.
  - by exists EmptyString, s.
  - destruct s as [|d s]; [discriminate|].
    injection H as Hc Hs. destruct (IH _ _ Hs) as (a' & b' & -> & <- & <-).
    exists (String d a'), b'. simpl. by rewrite Hc.
Qed.

Lemma head_plain_lower (q : bool) (s : string) :
  Aux.head_plain (JS.lower_from q s) = Aux.head_plain s.
Proof.
  destruct s as [|a s]; [done|]. simpl. rewrite lower_byte_N.
  destruct (JS.capital q (N_of_ascii a)) eqn:E; [|done].
  destruct ((128 <=? N_of_ascii a + 32) && (N_of_ascii a + 32 <=? 191))%N
    eqn:E1,
    ((128 <=? N_of_ascii a) && (N_of_ascii a <=? 191))%N eqn:E2; try done;
    destruct q; simpl in E; bytes; lia.
Qed.

Lemma lower_from_plain (q : bool) (s : string) :
  Aux.head_plain s = true → JS.lower_from q s = JS.lower_from false s.
Proof.
  destruct s as [|a s]; [done|]. simpl. intros H. f_equal.
  unfold JS.lower_byte.
  assert (JS.capital q (N_of_ascii a) = JS.capital false (N_of_ascii a))
    as ->; [|done].
  destruct q; [|done]. unfold JS.capital. simpl.
  destruct ((128 <=? N_of_ascii a) && (N_of_ascii a <=? 158)
            && negb (N_of_ascii a =? 151))%N eqn:E;
    [|by rewrite orb_false_r].
  bytes; lia.
Qed.

Lemma latin1_head_plain (s : string) :
  JS.latin1 s = true → Aux.head_plain s = true.
Proof.
  destruct s as [|a s]; [done|]. unfold JS.latin1. simpl.
  destruct (N_of_ascii a <? 128)%N eqn:E.
  - intros _. apply negb_true_iff, andb_false_iff. left.
    apply N.leb_gt. by apply N.ltb_lt.
  - intros H. apply andb_true_iff in H as [H _].
    apply negb_true_iff, andb_false_iff. right. apply N.leb_gt.
    bytes; lia.
Qed.

(** Containment of the lower-cased term in the lower-cased field is
    containment of the term up to letter case. *)
Lemma lower_latin1_contains (field term : string) :
  Aux.head_plain term = true →
  Spec.contains (JS.lower_latin1 field) (JS.lower_latin1 term)
  ↔ Spec.contains_ci field term.
Proof.
  intros Hterm. unfold Spec.contains, Spec.contains_ci, JS.lower_latin1.
  assert (∀ q mid, JS.lower_from q mid = JS.lower_from false term
                   ↔ Spec.same_text mid term = true) as Hmid.
  { intros q mid. unfold Spec.same_text. rewrite same_from_spec. split.
    - intros H. rewrite <-H. symmetry. apply lower_from_plain.
      rewrite <-(head_plain_lower q), H. by rewrite head_plain_lower.
    - intros H. rewrite <-H. apply lower_from_plain.
      rewrite <-(head_plain_lower false), H. by rewrite head_plain_lower. }
  split.
  - intros (pre & post & H).
    apply lower_from_split in H as (pre' & rest & -> & _ & H).
    apply lower_from_split in H as (mid & post' & -> & H & _).
    exists pre', mid, post'. split; [done|]. by apply Hmid in H.
  - intros (pre & mid & post & -> & H).
    exists (JS.lower_from false pre),
      (JS.lower_from (Aux.ends195 (Aux.ends195 false pre) mid) post).
    rewrite !lower_from_app. do 2 f_equal. by apply Hmid.
Qed.

Lemma includes_empty (s : string) : JS.includes s EmptyString = true.
Proof. by destruct s. Qed.

End Strings.

(** ** machineUtils *)

Section MachineUtilsFacts.

Lemma search_test_spec (toLowerCase : string → string) (term : string)
    (m : Machine) :
  JS.includes (toLowerCase (Types.name m)) (toLowerCase term) ||
  JS.includes (toLowerCase (Types.category m)) (toLowerCase term) ||
  JS.includes (toLowerCase (Types.code m)) (toLowerCase term) = true
  ↔ Spec.matches_lowered toLowerCase term m.
Proof.
  unfold Spec.matches_lowered, Spec.contains.
  rewrite !orb_true_iff, !includes_spec. tauto.
Qed.




Lemma findMachineByCode_None (c : string) (machines : list Machine) :
  (∀ m, m ∈ machines → Types.code m ≠ c) →
  MachineUtils.findMachineByCode c machines = None.
Proof.
  unfold MachineUtils.findMachineByCode.
  induction machines as [|m ms IH]; intros H; simpl; [done|].
  rewrite bool_decide_eq_false_2 by (apply H; left).
  apply IH. intros m' Hm'. apply H. by right.
Qed.



End MachineUtilsFacts.

(** ** Pricing *)

Section Pricing.

Implicit Types (machines : list Machine) (lineItems : list App.LineItem).
Implicit Types (form : App.QuotationForm).

Lemma sum_from (l : list Qc) (a : Qc) :
  List.fold_left Qcplus l a = a + Spec.sum l.
Proof.
  unfold Spec.sum. revert a. induction l as [|x l IH]; intros a; simpl.
  - ring.
  - rewrite IH, (IH (0 + x)). ring.
Qed.

Lemma sum_cons (x : Qc) (l : list Qc) : Spec.sum (x :: l) = x + Spec.sum l.
Proof. unfold Spec.sum at 1. simpl. rewrite sum_from. ring. Qed.

(** Summing the images of a list is folding the list, operation by
    operation. *)
Lemma sum_map {A} (f : A → Qc) (l : list A) (a : Qc) :
  List.fold_left Qcplus (List.map f l) a
  = List.fold_left (λ sum i, sum + f i) l a.
Proof. revert a. induction l as [|x l IH]; intros a; simpl; [done|]. apply IH. Qed.

Lemma lineItemDetails_lookup machines lineItems (k : nat) :
  App.lineItemDetails machines lineItems !! k
  = (λ it,
       let machine :=
         MachineUtils.findMachineByCode (App.machineCode it) machines in
       let unitPrice := JS.nullish (JS.chain machine Types.price) 0 in
       {| App.item := it; App.machine := machine;
          App.unitPrice := unitPrice;
          App.subtotal := unitPrice * App.quantity it |})
    <$> lineItems !! k.
Proof. unfold App.lineItemDetails. by rewrite list_lookup_fmap. Qed.

Lemma findMachineByCode_Some c machines m :
  MachineUtils.findMachineByCode c machines = Some m →
  m ∈ machines ∧ Types.code m = c.
Proof.
  unfold MachineUtils.findMachineByCode. intros H.
  apply find_some in H as [Hin Hc].
  split; [by apply list_elem_of_In | by apply bool_decide_eq_true in Hc].
Qed.

Lemma unitPrice_nonneg machines (c : string) :
  Forall Spec.valid_machine machines →
  0 ≤ JS.nullish
        (JS.chain (MachineUtils.findMachineByCode c machines) Types.price) 0.
Proof.
  intros Hm.
  destruct (MachineUtils.findMachineByCode c machines) as [m|] eqn:E; simpl.
  - apply findMachineByCode_Some in E as [Hin _].
    rewrite Forall_forall in Hm. specialize (Hm m Hin).
    unfold Spec.valid_machine in Hm.
    destruct (Types.price m); simpl; [done | apply Qcle_refl].
  - apply Qcle_refl.
Qed.

Lemma sum_nonneg (l : list Qc) : Forall (λ x, 0 ≤ x) l → 0 ≤ Spec.sum l.
Proof.
  induction 1 as [|x l Hx _ IH]; [apply Qcle_refl|].
  rewrite sum_cons. by apply Qcplus_nonneg_nonneg.
Qed.

Lemma fold_products machines lineItems (a : Qc) :
  List.fold_left (λ sum i, sum + App.subtotal i)
    (App.lineItemDetails machines lineItems) a
  = List.fold_left
      (λ sum i, sum + App.unitPrice i * App.quantity (App.item i))
      (App.lineItemDetails machines lineItems) a.
Proof.
  unfold App.lineItemDetails. revert a.
  induction lineItems as [|it l IH]; intros a; [done|]. simpl. apply IH.
Qed.

Lemma grandSubtotal_sum machines lineItems :
  App.grandSubtotal machines lineItems
  = Spec.sum
      (List.map (λ l, App.unitPrice l * App.quantity (App.item l))
         (App.lineItemDetails machines lineItems)).
Proof.
  unfold App.grandSubtotal, Spec.sum. rewrite sum_map. apply fold_products.
Qed.

Lemma grandSubtotal_nonneg machines lineItems :
  Forall Spec.valid_machine machines →
  Forall Spec.valid_item lineItems →
  0 ≤ App.grandSubtotal machines lineItems.
Proof.
  intros Hm Hi. rewrite grandSubtotal_sum. apply sum_nonneg.
  unfold App.lineItemDetails. rewrite List.map_map. simpl.
  induction Hi as [|it l Hit _ IH]; simpl; constructor; [|done].
  apply Qcmult_nonneg_nonneg; [by apply unitPrice_nonneg|].
  unfold Spec.valid_item in Hit.
  eapply Qcle_trans; [|exact Hit]. qc_eval.
Qed.

Lemma hundredth_nonneg (x : Qc) : 0 ≤ x → 0 ≤ x / JS.num 100.
Proof.
  intros H. unfold Qcdiv. apply Qcmult_nonneg_nonneg; [done | qc_eval].
Qed.

Lemma discountAmount_bounds machines lineItems form :
  0 ≤ App.grandSubtotal machines lineItems →
  0 ≤ App.discountPercent form ≤ JS.num 100 →
  0 ≤ App.discountAmount machines lineItems form
    ≤ App.grandSubtotal machines lineItems.
Proof.
  intros Hs [Hd0 Hd1]. unfold App.discountAmount.
  set (s := App.grandSubtotal machines lineItems) in *.
  set (d := App.discountPercent form) in *. split.
  - apply hundredth_nonneg. by apply Qcmult_nonneg_nonneg.
  - replace s with (s * JS.num 100 / JS.num 100) at 2
      by (field; qc_eval).
    unfold Qcdiv. apply Qcmult_le_mono_nonneg_r; [qc_eval|].
    by apply Qcmult_le_mono_nonneg_l.
Qed.

Lemma catalog_price_lookup machines (c : string) :
  JS.nullish (JS.chain (MachineUtils.findMachineByCode c machines) Types.price)
    0
  = Spec.catalog_price machines c.
Proof.
  unfold MachineUtils.findMachineByCode.
  induction machines as [|m ms IH]; simpl; [done|].
  case_bool_decide; [|done]. simpl. by destruct (Types.price m).
Qed.







(** C3: for the line items X1 x 2 and X2 x 1, a catalog that resolves X1
    to the unit price 1000 and X2 to 500, and a discount of 10 percent, the
    grand subtotal is 2500, the discount amount 250 and the grand total
    2250. *)
Theorem end_to_end_example machines (m1 m2 : Machine) (id1 id2 : string)
    form :
  MachineUtils.findMachineByCode "X1" machines = Some m1 →
  Types.price m1 = Some (JS.num 1000) →
  MachineUtils.findMachineByCode "X2" machines = Some m2 →
  Types.price m2 = Some (JS.num 500) →
  App.discountPercent form = JS.num 10 →
  let lineItems :=
    [ {| App.id := id1; App.machineCode := "X1"; App.quantity := JS.num 2 |};
      {| App.id := id2; App.machineCode := "X2"; App.quantity := JS.num 1 |} ]
  in
  App.grandSubtotal machines lineItems = JS.num 2500 ∧
  App.discountAmount machines lineItems form = JS.num 250 ∧
  App.grandTotal machines lineItems form = JS.num 2250.
Proof.
  intros H1 P1 H2 P2 Hd lineItems.
  assert (App.grandSubtotal machines lineItems = JS.num 2500) as Hs.
  { unfold App.grandSubtotal, App.lineItemDetails, lineItems. simpl.
    rewrite H1, H2. simpl. rewrite P1, P2. simpl. qc_eval. }
  unfold App.grandTotal, App.discountAmount. rewrite Hs, Hd.
  repeat split; qc_eval.
Qed.

Lemma end_to_end_example_witness :
  App.grandSubtotal Spec.example_catalog Spec.example_items = JS.num 2500 ∧
  App.discountAmount Spec.example_catalog Spec.example_items
    (Spec.form_with (JS.num 10)) = JS.num 250 ∧
  App.grandTotal Spec.example_catalog Spec.example_items
    (Spec.form_with (JS.num 10)) = JS.num 2250.
Proof.
  apply (end_to_end_example Spec.example_catalog
           (Spec.machine_of 1 "X1" (Some (JS.num 1000)))
           (Spec.machine_of 2 "X2" (Some (JS.num 500)))
           "X1-1700000000000" "X2-1700000000001"%string
           (Spec.form_with (JS.num 10))); reflexivity.
Defined.

(** C5: a line item whose machine code equals the code of no machine of
    the catalog still gets its line: the lookup yields null, the unit price
    is 0 and the subtotal is 0.  The computation yields one line per line
    item. *)
Theorem unknown_code_priced_zero machines lineItems (k : nat)
    (it : App.LineItem) :
  lineItems !! k = Some it →
  (∀ m, m ∈ machines → Types.code m ≠ App.machineCode it) →
  MachineUtils.findMachineByCode (App.machineCode it) machines = None ∧
  App.lineItemDetails machines lineItems !! k
  = Some {| App.item := it; App.machine := None;
            App.unitPrice := 0; App.subtotal := 0 |} ∧
  length (App.lineItemDetails machines lineItems) = length lineItems.
Proof.
  intros Hk Hc. pose proof (findMachineByCode_None _ _ Hc) as Hnone.
  split; [done|]. split.
  - rewrite lineItemDetails_lookup, Hk. simpl. rewrite Hnone. simpl.
    by rewrite Qcmult_0_l.
  - unfold App.lineItemDetails. apply length_map.
Qed.

Lemma unknown_code_priced_zero_witness :
  let ghost :=
    {| App.id := "x1-1700000000003"; App.machineCode := "x1";
       App.quantity := JS.num 4 |} in
  App.lineItemDetails Spec.example_catalog (Spec.example_items ++ [ghost])
    !! 2%nat
  = Some {| App.item := ghost; App.machine := None;
            App.unitPrice := 0; App.subtotal := 0 |}.
Proof.
  intros ghost.
  apply (unknown_code_priced_zero Spec.example_catalog
           (Spec.example_items ++ [ghost]) 2 ghost); [reflexivity|].
  intros m Hin.
  repeat (apply elem_of_cons in Hin as [->|Hin]; [discriminate|]).
  by apply elem_of_nil in Hin.
Defined.






End Pricing.

(** ** Line items *)

Section LineItems.

Implicit Types (prev : list App.LineItem) (it : App.LineItem).

Lemma Math_max_spec (x y : Qc) :
  x ≤ JS.Math_max x y ∧ y ≤ JS.Math_max x y ∧
  (JS.Math_max x y = x ∨ JS.Math_max x y = y).
Proof.
  unfold JS.Math_max. case_decide as H.
  - repeat split; [done | apply Qcle_refl | by right].
  - apply Qcnot_le_lt, Qclt_le_weak in H.
    repeat split; [apply Qcle_refl | done | by left].
Qed.

Lemma Math_max_l (x y : Qc) : y ≤ x → JS.Math_max x y = x.
Proof.
  intros H. unfold JS.Math_max. case_decide as H'; [|done].
  by apply Qcle_antisym.
Qed.

Lemma Math_max_r (x y : Qc) : x ≤ y → JS.Math_max x y = y.
Proof. intros H. unfold JS.Math_max. by case_decide. Qed.

Lemma or_else_NaN (d : Qc) : JS.or_else JS.NaN d = d.
Proof. done. Qed.

Lemma or_else_zero (d : Qc) : JS.or_else (JS.Num 0) d = d.
Proof. done. Qed.

Lemma or_else_Num (v d : Qc) : v ≠ 0 → JS.or_else (JS.Num v) d = v.
Proof. intros H. simpl. by rewrite bool_decide_eq_false_2. Qed.

(** What [Math.max(1, value || 1)] is, by the case of [value]. *)
Lemma requested_quantity (value : JS.number) :
  let q := JS.Math_max 1 (JS.or_else value 1) in
  1 ≤ q ∧
  (value = JS.NaN → q = 1) ∧
  (∀ v, value = JS.Num v → v ≤ 1 → q = 1) ∧
  (∀ v, value = JS.Num v → 1 ≤ v → q = v).
Proof.
  intros q. split; [apply Math_max_spec|]. split; [|split].
  - intros ->. subst q. rewrite or_else_NaN. by apply Math_max_l.
  - intros v -> Hv. subst q. apply Math_max_l.
    destruct (decide (v = 0)) as [->|Hz]; [by rewrite or_else_zero|].
    by rewrite or_else_Num.
  - intros v -> Hv. subst q.
    assert (v ≠ 0) as Hz.
    { intros ->. revert Hv. qc_eval. }
    rewrite or_else_Num by done. by apply Math_max_r.
Qed.

Lemma select_absent (code : string) (now : Z) prev :
  (∀ it, it ∈ prev → App.machineCode it ≠ code) →
  App.handleMachineSelect code now prev
  = prev ++ [ {| App.id := code +:+ "-" +:+ pretty now;
                 App.machineCode := code; App.quantity := 1 |} ].
Proof.
  intros H. unfold App.handleMachineSelect.
  destruct (List.find _ prev) as [x|] eqn:E; [|done].
  apply find_some in E as [Hin Hc].
  apply bool_decide_eq_true in Hc. apply list_elem_of_In in Hin.
  by destruct (H x Hin).
Qed.

Lemma select_present (code : string) (now : Z) prev it :
  it ∈ prev → App.machineCode it = code →
  App.handleMachineSelect code now prev
  = List.map
      (λ item, if bool_decide (App.machineCode item = code)
               then App.set_quantity (App.quantity item + 1) item
               else item)
      prev.
Proof.
  intros Hin Hc. unfold App.handleMachineSelect.
  destruct (List.find _ prev) as [x|] eqn:E; [done|].
  apply list_elem_of_In in Hin.
  pose proof (find_none _ _ E it Hin) as Hn. simpl in Hn.
  by rewrite bool_decide_eq_true_2 in Hn.
Qed.

Lemma one_le_succ (q : Qc) : 1 ≤ q → 1 ≤ q + 1.
Proof.
  intros H. eapply Qcle_trans; [exact H|].
  apply Qcle_minus_iff. replace (q + 1 + - q) with 1 by ring. qc_eval.
Qed.

Lemma select_valid (code : string) (now : Z) prev :
  Forall Spec.valid_item prev →
  Forall Spec.valid_item (App.handleMachineSelect code now prev).
Proof.
  intros H. unfold App.handleMachineSelect.
  destruct (List.find _ prev) as [x|].
  - induction H as [|it l Hit _ IH]; simpl; constructor; [|done].
    case_bool_decide; [|done]. by apply one_le_succ.
  - apply Forall_app. split; [done|]. repeat constructor.
    unfold Spec.valid_item. simpl. apply Qcle_refl.
Qed.

Lemma remove_valid (i : string) prev :
  Forall Spec.valid_item prev →
  Forall Spec.valid_item (App.removeLineItem i prev).
Proof.
  intros H. unfold App.removeLineItem.
  induction H as [|it l Hit _ IH]; simpl; [done|].
  destruct (negb _); [by constructor | done].
Qed.

Lemma adjust_valid (i : string) (delta : Qc) prev :
  Forall Spec.valid_item prev →
  Forall Spec.valid_item (App.adjustQuantity i delta prev).
Proof.
  intros H. unfold App.adjustQuantity.
  induction H as [|it l Hit _ IH]; simpl; constructor; [|done].
  case_bool_decide; [|done]. apply Math_max_spec.
Qed.

Lemma update_valid (i : string) (value : JS.number) prev :
  Forall Spec.valid_item prev →
  Forall Spec.valid_item (App.updateQuantityInput i value prev).
Proof.
  intros H. unfold App.updateQuantityInput.
  induction H as [|it l Hit _ IH]; simpl; constructor; [|done].
  case_bool_decide; [|done]. apply Math_max_spec.
Qed.

(** Every list the handlers can produce keeps all quantities at one or
    more. *)
Lemma reachable_valid prev :
  Spec.reachable prev → Forall Spec.valid_item prev.
Proof.
  induction 1;
    auto using select_valid, remove_valid, adjust_valid, update_valid.
Qed.

(** C4: every line-item mutation keeps every quantity at one or more.
    Selecting a machine that is not in the list appends an item with
    quantity 1; selecting one that is in the list adds one to the quantity
    of its items and leaves the others alone; [adjustQuantity] sets the
    quantity of the addressed item to the larger of 1 and
    quantity + delta; [updateQuantityInput] sets it to a quantity of at
    least 1 whatever the value: 1 for NaN and for every value up to 1 (so
    for 0 and for negative values), the value itself from 1 on. *)
Theorem quantity_floor prev :
  (Forall Spec.valid_item prev →
     (∀ code now,
        Forall Spec.valid_item (App.handleMachineSelect code now prev)) ∧
     (∀ i, Forall Spec.valid_item (App.removeLineItem i prev)) ∧
     (∀ i delta, Forall Spec.valid_item (App.adjustQuantity i delta prev)) ∧
     (∀ i value,
        Forall Spec.valid_item (App.updateQuantityInput i value prev))) ∧
  (∀ code now,
     (∀ it, it ∈ prev → App.machineCode it ≠ code) →
     App.handleMachineSelect code now prev
     = prev ++ [ {| App.id := code +:+ "-" +:+ pretty now;
                    App.machineCode := code; App.quantity := 1 |} ]) ∧
  (∀ code now (k : nat) it,
     (∃ it', it' ∈ prev ∧ App.machineCode it' = code) →
     prev !! k = Some it →
     App.handleMachineSelect code now prev !! k
     = Some (if bool_decide (App.machineCode it = code)
             then {| App.id := App.id it;
                     App.machineCode := App.machineCode it;
                     App.quantity := App.quantity it + 1 |}
             else it)) ∧
  (∀ i delta (k : nat) it,
     prev !! k = Some it →
     ∃ q, App.adjustQuantity i delta prev !! k
          = Some (if bool_decide (App.id it = i)
                  then {| App.id := App.id it;
                          App.machineCode := App.machineCode it;
                          App.quantity := q |}
                  else it) ∧
          1 ≤ q ∧ App.quantity it + delta ≤ q ∧
          (q = 1 ∨ q = App.quantity it + delta)) ∧
  (∀ i value (k : nat) it,
     prev !! k = Some it →
     ∃ q, App.updateQuantityInput i value prev !! k
          = Some (if bool_decide (App.id it = i)
                  then {| App.id := App.id it;
                          App.machineCode := App.machineCode it;
                          App.quantity := q |}
                  else it) ∧
          1 ≤ q ∧
          (value = JS.NaN → q = 1) ∧
          (∀ v, value = JS.Num v → v ≤ 1 → q = 1) ∧
          (∀ v, value = JS.Num v → 1 ≤ v → q = v)).
Proof.
  split; [|split; [|split; [|split]]].
  - intros H.
    auto using select_valid, remove_valid, adjust_valid, update_valid.
  - intros code now. apply select_absent.
  - intros code now k it (it' & Hin & Hc) Hk.
    rewrite (select_present code now prev it' Hin Hc).
    rewrite list_lookup_fmap, Hk. simpl. by case_bool_decide.
  - intros i delta k it Hk.
    exists (JS.Math_max 1 (App.quantity it + delta)).
    split; [|apply Math_max_spec].
    unfold App.adjustQuantity. rewrite list_lookup_fmap, Hk. simpl.
    by case_bool_decide.
  - intros i value k it Hk.
    exists (JS.Math_max 1 (JS.or_else value 1)).
    split; [|apply requested_quantity].
    unfold App.updateQuantityInput. rewrite list_lookup_fmap, Hk. simpl.
    by case_bool_decide.
Qed.

Lemma quantity_floor_witness :
  Forall Spec.valid_item
    (App.adjustQuantity "X2-1700000000001" (JS.num (-5))
       Spec.example_items) ∧
  Forall Spec.valid_item
    (App.updateQuantityInput "X1-1700000000000" JS.NaN Spec.example_items) ∧
  App.handleMachineSelect "X3" 1700000000002 Spec.example_items
  = Spec.example_items ++
    [ {| App.id := "X3-1700000000002"; App.machineCode := "X3";
         App.quantity := 1 |} ] ∧
  App.handleMachineSelect "X1" 1700000000002 Spec.example_items !! 0%nat
  = Some {| App.id := "X1-1700000000000"; App.machineCode := "X1";
            App.quantity := JS.num 2 + 1 |}.
Proof.
  destruct (quantity_floor Spec.example_items) as (Hinv & Hadd & Hinc & _).
  destruct Hinv as (_ & _ & Hadj & Hupd).
  { repeat constructor; unfold Spec.valid_item; simpl; qc_eval. }
  split; [apply Hadj|]. split; [apply Hupd|]. split.
  - apply (Hadd "X3" 1700000000002%Z).
    intros it Hin.
    repeat (apply elem_of_cons in Hin as [->|Hin]; [discriminate|]).
    by apply elem_of_nil in Hin.
  - apply (Hinc "X1" 1700000000002%Z 0%nat
             {| App.id := "X1-1700000000000"; App.machineCode := "X1";
                App.quantity := JS.num 2 |}); [|reflexivity].
    eexists. split; [apply list_elem_of_here | reflexivity].
Defined.

End LineItems.

(** ** Catalog administration *)

Section Deactivation.

Import AdminPanel.

Lemma deactivate_lookup (machineId : Z) (prev : list Machine) (k : nat) :
  List.map
    (λ m, if bool_decide (Types.id m = machineId)
          then Types.set_active false m else m) prev !! k
  = (λ m, if bool_decide (Types.id m = machineId)
          then Types.set_active false m else m) <$> prev !! k.
Proof. apply list_lookup_fmap. Qed.

(** C7: deactivating never removes a machine.  When the request succeeds,
    the list has the same length and order; at each position, a machine
    whose id is the given one is there with [active = false] and every
    other field as before, and a machine with another id is there
    unchanged.  Whatever the outcome of the call, the list keeps its
    length and the ids at each position. *)
Theorem deactivate_never_removes (machineId : Z) (st : State) :
  let st' := handleDeleteMachine machineId true ResponseOk st in
  length (machines st') = length (machines st) ∧
  (∀ (k : nat) m,
     machines st !! k = Some m →
     machines st' !! k
     = Some (if bool_decide (Types.id m = machineId)
             then {| Types.id := Types.id m; Types.code := Types.code m;
                     Types.name := Types.name m;
                     Types.price := Types.price m;
                     Types.category := Types.category m;
                     Types.description := Types.description m;
                     Types.active := false;
                     Types.model_name := Types.model_name m;
                     Types.product_title := Types.product_title m;
                     Types.price_currency := Types.price_currency m;
                     Types.options := Types.options m;
                     Types.availableOptions := Types.availableOptions m |}
             else m)) ∧
  options st' = options st ∧
  (∀ confirmed outcome,
     let st'' := handleDeleteMachine machineId confirmed outcome st in
     length (machines st'') = length (machines st) ∧
     Types.id <$> machines st'' = Types.id <$> machines st ∧
     (confirmed = false ∨ outcome ≠ ResponseOk →
      machines st'' = machines st)).
Proof.
  intros st'. split; [|split; [|split]].
  - subst st'. simpl. apply length_map.
  - intros k m Hk. subst st'. simpl.
    by rewrite deactivate_lookup, Hk.
  - done.
  - intros confirmed outcome st''. subst st''.
    destruct confirmed, outcome; simpl; repeat split; try done.
    + apply length_map.
    + rewrite <-list_fmap_compose. apply list_fmap_ext.
      intros _ m _. simpl. by case_bool_decide.
    + intros [?|?]; done.
Qed.

Lemma deactivate_never_removes_witness :
  let st :=
    {| machines := Spec.example_catalog; options := [];
       notification := {| type := None; message := EmptyString |} |} in
  machines (handleDeleteMachine 2 true ResponseOk st) !! 1%nat
  = Some (Types.set_active false
            (Spec.machine_of 2 "X2" (Some (JS.num 500)))) ∧
  machines (handleDeleteMachine 2 true ResponseOk st) !! 0%nat
  = Some (Spec.machine_of 1 "X1" (Some (JS.num 1000))) ∧
  machines (handleDeleteMachine 2 true Thrown st) = machines st.
Proof.
  intros st.
  destruct (deactivate_never_removes 2 st) as (_ & Hk & _ & Hany).
  split; [|split].
  - apply (Hk 1%nat (Spec.machine_of 2 "X2" (Some (JS.num 500)))).
    reflexivity.
  - apply (Hk 0%nat (Spec.machine_of 1 "X1" (Some (JS.num 1000)))).
    reflexivity.
  - apply (Hany true Thrown). right. discriminate.
Defined.

End Deactivation.

(** ** Price-list import *)

Section ImportReview.

Import PriceListImport.

Implicit Types (p r : gmap string JS.jsval) (st : State).

Lemma review_lookup p (key : string) :
  review p !! key
  = if bool_decide (key = "_expanded") then Some (JS.JBool false)
    else if bool_decide (key = "_selected")
         then Some (JS.JBool (JS.not_null (p !! "price")))
         else p !! key.
Proof.
  unfold review. repeat case_bool_decide; subst.
  - by rewrite lookup_insert_eq.
  - by rewrite lookup_insert_ne, lookup_insert_eq.
  - by rewrite !lookup_insert_ne.
Qed.

Lemma clean_lookup p (key : string) :
  clean p !! key
  = if bool_decide (key = "_selected") then None
    else if bool_decide (key = "_expanded") then None else p !! key.
Proof.
  unfold clean. repeat case_bool_decide; subst.
  - by rewrite lookup_delete_ne, lookup_delete_eq.
  - by rewrite lookup_delete_eq.
  - by rewrite !lookup_delete_ne.
Qed.

Lemma not_null_true (v : option JS.jsval) :
  JS.not_null v = true ↔ v ≠ Some JS.JNull.
Proof.
  destruct v as [[]|]; simpl; split; intros H; try done.
Qed.

Lemma filter_nil_iff {A} (f : A → bool) (l : list A) :
  List.filter f l = [] ↔ ∀ x, x ∈ l → f x = false.
Proof.
  induction l as [|a l IH]; simpl.
  - split; [intros _ x Hx; by apply elem_of_nil in Hx | done].
  - destruct (f a) eqn:E; split.
    + discriminate.
    + intros H. specialize (H a (list_elem_of_here _ _)). congruence.
    + intros H x Hx. apply elem_of_cons in Hx as [->|Hx]; [done|].
      by apply IH.
    + intros H. apply IH. intros x Hx. apply H. by right.
Qed.

(** C8: after a preview that loaded, the review list has one product per
    parsed product, in the same order; the product at each position is the
    parsed one with the two UI fields added; it is marked selected exactly
    when its parsed price is not null, and a product whose price is null is
    there unselected. *)
Theorem preview_load_selects_priced (toLowerCase : string → string)
    (fileName : string) (data : PreviewData) st :
  JS.endsWith (toLowerCase fileName) ".pdf" = true →
  let st' := handleFileUpload toLowerCase fileName (Ok data) st in
  step st' = preview_step ∧
  preview st' = Some data ∧
  conditions st' = payment_conditions data ∧
  length (products st') = length (pv_products data) ∧
  (∀ (k : nat) p,
     pv_products data !! k = Some p →
     ∃ r, products st' !! k = Some r ∧
          (selected r = true ↔ p !! "price" ≠ Some JS.JNull) ∧
          (p !! "price" ≠ Some JS.JNull →
           r !! "_selected" = Some (JS.JBool true)) ∧
          (p !! "price" = Some JS.JNull →
           r !! "_selected" = Some (JS.JBool false)) ∧
          r !! "_expanded" = Some (JS.JBool false) ∧
          (∀ key : string,
             key ≠ "_selected" → key ≠ "_expanded" → r !! key = p !! key)).
Proof.
  intros Hpdf st'. subst st'. unfold handleFileUpload. rewrite Hpdf. simpl.
  split; [done|]. split; [done|]. split; [done|].
  split; [apply length_map|].
  intros k p Hk. exists (review p). split.
  { by rewrite list_lookup_fmap, Hk. }
  unfold selected. rewrite !review_lookup. simpl.
  split; [apply not_null_true|]. split; [|split; [|split]].
  - intros Hp. by rewrite (proj2 (not_null_true _) Hp).
  - by intros ->.
  - done.
  - intros key H1 H2. rewrite review_lookup.
    by rewrite !bool_decide_eq_false_2.
Qed.

Lemma preview_load_selects_priced_witness :
  let st' :=
    handleFileUpload JS.lower_latin1 "LISTADEPRECIOS.PDF" (Ok Spec.example_preview)
      Spec.initial_import in
  step st' = preview_step ∧
  selected <$> products st' = [true; false] ∧
  length (products st') = 2%nat.
Proof.
  intros st'.
  destruct (preview_load_selects_priced JS.lower_latin1 "LISTADEPRECIOS.PDF"
              Spec.example_preview Spec.initial_import)
    as (Hstep & _ & _ & Hlen & _); [reflexivity|].
  split; [exact Hstep|]. split; [reflexivity | exact Hlen].
Defined.

(** C6: the confirm request carries exactly the products marked selected,
    as often and in the order in which the review list has them; each one
    is sent without the UI fields [_selected] and [_expanded] and with
    every other field as it is.  Products not marked are in no request,
    and a request is sent as soon as one product is marked. *)
Theorem confirm_sends_selected
    (server : ConfirmBody → Response ConfirmResult) st :
  (∀ st' body,
     handleConfirm server st = (st', Some body) →
     body_products body = clean <$> List.filter selected (products st) ∧
     body_payment_conditions body = conditions st ∧
     body_replace_existing body = replaceExisting st ∧
     (∀ q, q ∈ body_products body
           ↔ ∃ p, p ∈ products st ∧ selected p = true ∧ q = clean p) ∧
     (∀ q, q ∈ body_products body →
           q !! "_selected" = None ∧ q !! "_expanded" = None)) ∧
  (∀ p (key : string),
     key ≠ "_selected" → key ≠ "_expanded" → clean p !! key = p !! key) ∧
  (∀ p, clean p !! "_selected" = None ∧ clean p !! "_expanded" = None) ∧
  ((∃ p, p ∈ products st ∧ selected p = true) →
   ∃ st' body, handleConfirm server st = (st', Some body)).
Proof.
  assert (∀ p, clean p !! "_selected" = None ∧ clean p !! "_expanded" = None)
    as Hgone.
  { intros p. by rewrite !clean_lookup. }
  split; [|split; [|split]]; [| |done|].
  - intros st' body H. unfold handleConfirm in H.
    case_bool_decide as Hsel; [by injection H|].
    assert (body = {| body_products :=
                        List.map clean (List.filter selected (products st));
                      body_payment_conditions := conditions st;
                      body_replace_existing := replaceExisting st |})
      as ->.
    { simpl in H. destruct (server _); by injection H. }
    simpl. split; [done|]. split; [done|]. split; [done|]. split.
    + intros q. split.
      * intros Hq. apply list_elem_of_fmap in Hq as (p & -> & Hp).
        apply list_elem_of_In, filter_In in Hp as [Hp Hs].
        exists p. by rewrite list_elem_of_In.
      * intros (p & Hp & Hs & ->). apply list_elem_of_fmap. exists p.
        split; [done|]. apply list_elem_of_In, filter_In.
        by rewrite <-list_elem_of_In.
    + intros q Hq. apply list_elem_of_fmap in Hq as (p & -> & _).
      apply Hgone.
  - intros p key H1 H2. rewrite clean_lookup.
    by rewrite !bool_decide_eq_false_2.
  - intros (p & Hp & Hs). unfold handleConfirm.
    rewrite bool_decide_eq_false_2.
    + simpl. destruct (server _); eauto.
    + intros Hlen. apply nil_length_inv in Hlen.
      rewrite filter_nil_iff in Hlen. specialize (Hlen p Hp). congruence.
Qed.

Lemma confirm_sends_selected_witness :
  let st :=
    handleFileUpload JS.lower_latin1 "lista.pdf" (Ok Spec.example_preview)
      Spec.initial_import in
  ∃ st' body,
    handleConfirm Spec.accepting_server st = (st', Some body) ∧
    body_products body = [Spec.priced_product].
Proof.
  intros st.
  destruct (confirm_sends_selected Spec.accepting_server st)
    as (Hbody & _ & _ & Hsent).
  destruct Hsent as (st' & body & Heq).
  { exists (review Spec.priced_product). split; [|reflexivity].
    apply list_elem_of_here. }
  exists st', body. split; [exact Heq|].
  destruct (Hbody st' body Heq) as (-> & _).
  apply (f_equal (λ l, [l])). apply map_eq. intros key.
  rewrite clean_lookup, review_lookup.
  repeat case_bool_decide; subst; try done.
Defined.

(** C9: with no product marked selected, [handleConfirm] sends no request
    and sets the error message only: the step, the products, the
    conditions and every other part of the state stay as they are. *)
Theorem confirm_nothing_selected
    (server : ConfirmBody → Response ConfirmResult) st :
  (∀ p, p ∈ products st → selected p = false) →
  handleConfirm server st
  = ({| step := step st; preview := preview st; products := products st;
        conditions := conditions st;
        replaceExisting := replaceExisting st; result := result st;
        error := Some "Seleccioná al menos un producto para importar" |},
     None).
Proof.
  intros H. apply filter_nil_iff in H. unfold handleConfirm.
  by rewrite H.
Qed.

Lemma confirm_nothing_selected_witness :
  let st :=
    toggleProduct 0
      (handleFileUpload JS.lower_latin1 "lista.pdf" (Ok Spec.example_preview)
         Spec.initial_import) in
  step st = preview_step ∧
  snd (handleConfirm Spec.accepting_server st) = None ∧
  step (fst (handleConfirm Spec.accepting_server st)) = preview_step ∧
  products (fst (handleConfirm Spec.accepting_server st)) = products st.
Proof.
  intros st.
  rewrite (confirm_nothing_selected Spec.accepting_server st).
  - repeat split.
  - intros p Hp.
    repeat (apply elem_of_cons in Hp as [->|Hp]; [reflexivity|]).
    by apply elem_of_nil in Hp.
Defined.

End ImportReview.

(** ** More on machineUtils and the machine selector *)

Section SearchFacts.

Implicit Types (machines : list Machine) (m : Machine).

Lemma searchMachines_empty (toLowerCase : string → string) machines :
  toLowerCase EmptyString = EmptyString →
  MachineUtils.searchMachines toLowerCase EmptyString machines = machines.
Proof.
  intros H. unfold MachineUtils.searchMachines. rewrite H.
  induction machines as [|m ms IH]; simpl; [done|].
  rewrite includes_empty. simpl. by f_equal.
Qed.

Lemma filter_filter_implied {A} (f g : A → bool) (l : list A) :
  (∀ x, g x = true → f x = true) →
  List.filter g (List.filter f l) = List.filter g l.
Proof.
  intros H. induction l as [|x l IH]; simpl; [done|].
  destruct (f x) eqn:Ef; simpl.
  - rewrite IH. done.
  - destruct (g x) eqn:Eg; [|done]. rewrite (H x Eg) in Ef. done.
Qed.

Lemma filter_comm {A} (f g : A → bool) (l : list A) :
  List.filter f (List.filter g l) = List.filter g (List.filter f l).
Proof.
  induction l as [|x l IH]; simpl; [done|].
  destruct (f x) eqn:Ef, (g x) eqn:Eg; simpl; rewrite ?Ef, ?Eg, IH; done.
Qed.

Lemma filter_sublist {A} (f : A → bool) (l : list A) :
  sublist (List.filter f l) l.
Proof.
  induction l as [|x l IH]; simpl; [constructor|].
  destruct (f x); by constructor.
Qed.

Lemma string_app_assoc (s t u : string) :
  (s +:+ t) +:+ u = s +:+ t +:+ u.
Proof.
  induction s as [|c s IH]; [done|].
  change (String c ((s +:+ t) +:+ u) = String c (s +:+ t +:+ u)).
  by f_equal.
Qed.

Lemma contains_trans (field longer shorter : string) :
  Spec.contains field longer → Spec.contains longer shorter →
  Spec.contains field shorter.
Proof.
  intros (a & b & ->) (c & d & ->).
  exists (a +:+ c), (d +:+ b).
  by rewrite !string_app_assoc.
Qed.

(** X1: [findMachineByCode] yields the first machine of the list whose code
    is the given one: a machine is the result exactly when it stands in the
    list behind machines of other codes only. *)
Theorem findMachineByCode_first_match (c : string) machines m :
  MachineUtils.findMachineByCode c machines = Some m
  ↔ ∃ pre post, machines = pre ++ m :: post ∧ Types.code m = c ∧
      ∀ m', m' ∈ pre → Types.code m' ≠ c.
Proof.
  unfold MachineUtils.findMachineByCode.
  induction machines as [|x ms IH]; simpl.
  - split; [done|]. intros (pre & post & H & _). by destruct pre.
  - case_bool_decide as Hx.
    + split.
      * intros [= ->]. exists [], ms. repeat split; [done|].
        intros m' Hm'. by apply elem_of_nil in Hm'.
      * intros (pre & post & H & Hc & Hpre). destruct pre as [|y pre].
        -- by injection H as -> _.
        -- injection H as -> _. destruct (Hpre y); [left | done].
    + rewrite IH. split.
      * intros (pre & post & -> & Hc & Hpre). exists (x :: pre), post.
        repeat split; [done|]. intros m' Hm'.
        apply elem_of_cons in Hm' as [->|Hm']; [done | by apply Hpre].
      * intros (pre & post & H & Hc & Hpre). destruct pre as [|y pre].
        -- injection H as -> _. done.
        -- injection H as -> ->. exists pre, post. repeat split; [done|].
           intros m' Hm'. apply Hpre. by right.
Qed.

(** X2: a term that contains another finds no more than the other.  When
    the lower case of the longer term contains the lower case of the
    shorter one, the machines found for the longer term are among those
    found for the shorter one, in the same order, and searching the shorter
    term's result for the longer term gives the same list as searching the
    whole catalog.  For terms written in Latin-1 the condition holds as
    soon as the longer term contains the shorter one up to the case of
    letters. *)
Theorem searchMachines_refine (toLowerCase : string → string)
    (shorter longer : string) machines :
  (Spec.contains (toLowerCase longer) (toLowerCase shorter) →
   sublist (MachineUtils.searchMachines toLowerCase longer machines)
           (MachineUtils.searchMachines toLowerCase shorter machines) ∧
   MachineUtils.searchMachines toLowerCase longer
     (MachineUtils.searchMachines toLowerCase shorter machines)
   = MachineUtils.searchMachines toLowerCase longer machines) ∧
  (JS.toLowerCase_latin1 toLowerCase →
   JS.latin1 longer = true → JS.latin1 shorter = true →
   Spec.contains_ci longer shorter →
   Spec.contains (toLowerCase longer) (toLowerCase shorter)).
Proof.
  split.
  - intros H.
    assert (MachineUtils.searchMachines toLowerCase longer
              (MachineUtils.searchMachines toLowerCase shorter machines)
            = MachineUtils.searchMachines toLowerCase longer machines) as E.
    { unfold MachineUtils.searchMachines; simpl.
      apply filter_filter_implied. intros m.
      rewrite !search_test_spec. unfold Spec.matches_lowered.
      intros [Hm|[Hm|Hm]]; eauto using contains_trans. }
    split; [|done]. rewrite <-E. apply filter_sublist.
  - intros Hlow Hl Hs H. rewrite !Hlow by done.
    by apply lower_latin1_contains; [apply latin1_head_plain|].
Qed.

Lemma searchMachines_refine_witness :
  MachineUtils.searchMachines JS.lower_latin1 "ñandú"
    (MachineUtils.searchMachines JS.lower_latin1 "ÑA" Aux.accented_catalog)
  = MachineUtils.searchMachines JS.lower_latin1 "ñandú" Aux.accented_catalog.
Proof.
  destruct (searchMachines_refine JS.lower_latin1 "ÑA" "ñandú"
              Aux.accented_catalog) as [H1 H2].
  apply H1, H2.
  - by intros s _.
  - reflexivity.
  - reflexivity.
  - exists EmptyString, "ña"%string, "ndú"%string. split; reflexivity.
Defined.

(** X3: searching and restricting to a category commute, and searching a
    second time for the same term changes nothing. *)
Theorem searchMachines_category_commute (toLowerCase : string → string)
    (term categoryName : string) machines :
  MachineUtils.searchMachines toLowerCase term
    (MachineUtils.getMachinesByCategory categoryName machines)
  = MachineUtils.getMachinesByCategory categoryName
      (MachineUtils.searchMachines toLowerCase term machines) ∧
  MachineUtils.searchMachines toLowerCase term
    (MachineUtils.searchMachines toLowerCase term machines)
  = MachineUtils.searchMachines toLowerCase term machines.
Proof.
  split.
  - unfold MachineUtils.searchMachines, MachineUtils.getMachinesByCategory.
    apply filter_comm.
  - unfold MachineUtils.searchMachines. simpl.
    by apply filter_filter_implied.
Qed.

(** X4: the filter the selector applies inline is [searchMachines]: for
    every term, the empty one included, the selector lists exactly the
    machines that [searchMachines] returns.  The empty term is where the
    two differ in code: the selector returns the list as it is, and
    [searchMachines] filters it by the lower case of the empty string,
    which the built-in leaves empty. *)
Theorem filteredMachines_is_searchMachines (toLowerCase : string → string)
    (searchTerm : string) machines :
  toLowerCase EmptyString = EmptyString →
  MachinerySelector.filteredMachines toLowerCase searchTerm machines
  = MachineUtils.searchMachines toLowerCase searchTerm machines.
Proof.
  intros Hempty.
  unfold MachinerySelector.filteredMachines. case_bool_decide as H; simpl.
  - subst. by rewrite searchMachines_empty.
  - done.
Qed.

Lemma filteredMachines_is_searchMachines_witness :
  MachinerySelector.filteredMachines JS.lower_latin1 "tolva"
    Aux.accented_catalog
  = MachineUtils.searchMachines JS.lower_latin1 "tolva" Aux.accented_catalog ∧
  MachinerySelector.filteredMachines JS.lower_latin1 EmptyString
    Aux.accented_catalog
  = MachineUtils.searchMachines JS.lower_latin1 EmptyString
      Aux.accented_catalog.
Proof.
  split;
    by apply (filteredMachines_is_searchMachines JS.lower_latin1).
Defined.

End SearchFacts.

(** ** Grouping by category and clicks in the selector *)

Section SelectorFacts.

Import MachinerySelector.

Implicit Types (filtered : list Machine) (m : Machine).
Implicit Types (cats : gmap string (list Machine)).

Lemma categories_snoc filtered m :
  categories (filtered ++ [m]) = group_step (categories filtered) m.
Proof. unfold categories. by rewrite fold_left_app. Qed.

Lemma getMachinesByCategory_snoc (c : string) filtered m :
  MachineUtils.getMachinesByCategory c (filtered ++ [m])
  = MachineUtils.getMachinesByCategory c filtered
    ++ (if bool_decide (Types.category m = c) then [m] else []).
Proof.
  unfold MachineUtils.getMachinesByCategory. by rewrite List.filter_app.
Qed.

Lemma group_of_snoc_same filtered m :
  Aux.group_of (Types.category m) (filtered ++ [m])
  = Some (MachineUtils.getMachinesByCategory (Types.category m) filtered
          ++ [m]).
Proof.
  unfold Aux.group_of. rewrite getMachinesByCategory_snoc.
  rewrite bool_decide_eq_true_2 by done.
  by destruct (MachineUtils.getMachinesByCategory _ filtered).
Qed.

Lemma group_of_snoc_other (c : string) filtered m :
  Types.category m ≠ c →
  Aux.group_of c (filtered ++ [m]) = Aux.group_of c filtered.
Proof.
  intros H. unfold Aux.group_of. rewrite getMachinesByCategory_snoc.
  rewrite bool_decide_eq_false_2 by done. by rewrite app_nil_r.
Qed.

Lemma categories_inv filtered cats :
  categories filtered = Some cats →
  Forall (λ m, inherited (Types.category m) = false) filtered ∧
  ∀ c, cats !! c = Aux.group_of c filtered.
Proof.
  revert cats. induction filtered as [|m l IH] using rev_ind; intros cats H.
  - injection H as <-. split; [constructor|]. intros c.
    by rewrite lookup_empty.
  - rewrite categories_snoc in H.
    destruct (categories l) as [cats0|]; [|done].
    destruct (IH cats0 eq_refl) as [Hl Hcats]. simpl in H.
    rewrite Hcats in H.
    destruct (Aux.group_of (Types.category m) l) as [g|] eqn:Eg.
    + injection H as <-. split.
      * apply Forall_app. split; [done|]. constructor; [|constructor].
        unfold Aux.group_of in Eg.
        destruct (MachineUtils.getMachinesByCategory _ l) as [|y g'] eqn:E;
          [done|].
        assert (y ∈ MachineUtils.getMachinesByCategory (Types.category m) l)
          as Hy by (rewrite E; left).
        unfold MachineUtils.getMachinesByCategory in Hy.
        apply list_elem_of_In, filter_In in Hy as [Hy Hc].
        apply bool_decide_eq_true in Hc. rewrite <-Hc.
        rewrite Forall_forall in Hl. apply Hl. by apply list_elem_of_In.
      * intros c. destruct (decide (Types.category m = c)) as [<-|Hne].
        -- rewrite lookup_insert_eq, group_of_snoc_same.
           unfold Aux.group_of in Eg.
           by destruct (MachineUtils.getMachinesByCategory _ l);
             simplify_eq.
        -- by rewrite lookup_insert_ne, group_of_snoc_other, Hcats.
    + destruct (inherited (Types.category m)) eqn:Ei; [done|].
      injection H as <-. split.
      * apply Forall_app. split; [done|]. by repeat constructor.
      * intros c. destruct (decide (Types.category m = c)) as [<-|Hne].
        -- rewrite lookup_insert_eq, group_of_snoc_same.
           unfold Aux.group_of in Eg.
           by destruct (MachineUtils.getMachinesByCategory _ l).
        -- by rewrite lookup_insert_ne, group_of_snoc_other, Hcats.
Qed.

Lemma categories_total filtered :
  Forall (λ m, inherited (Types.category m) = false) filtered →
  ∃ cats, categories filtered = Some cats.
Proof.
  induction filtered as [|m l IH] using rev_ind; intros H.
  - by exists ∅.
  - apply Forall_app in H as [Hl Hm]. destruct (IH Hl) as [cats Hcats].
    rewrite categories_snoc, Hcats. simpl.
    destruct (cats !! Types.category m); [eauto|].
    apply Forall_inv in Hm. simpl in Hm. rewrite Hm. eauto.
Qed.

(** X5: the selector groups the filtered machines by category.  Unless a
    machine's category is a property name that every object inherits (then
    the grouping throws), each category that occurs gets the machines of
    that category, in the order of the list, and no other key exists: every
    machine is in the group of its own category and in no other. *)
Theorem categories_groups filtered :
  (categories filtered = None
   ↔ Exists (λ m, inherited (Types.category m) = true) filtered) ∧
  (∀ cats,
     categories filtered = Some cats →
     ∀ c, cats !! c
          = match MachineUtils.getMachinesByCategory c filtered with
            | [] => None
            | g => Some g
            end) ∧
  (∀ cats m,
     categories filtered = Some cats → m ∈ filtered →
     ∃ g, cats !! Types.category m = Some g ∧ m ∈ g ∧
          ∀ c g', cats !! c = Some g' → m ∈ g' → c = Types.category m).
Proof.
  split; [|split].
  - split.
    + intros Hnone.
      destruct (decide (Exists (λ m, inherited (Types.category m) = true)
                          filtered)) as [|Hn]; [done|].
      apply not_Exists_Forall in Hn; [|intros m; apply _].
      assert (Forall (λ m, inherited (Types.category m) = false) filtered)
        as Hall.
      { eapply Forall_impl; [exact Hn|]. intros m Hm. simpl in Hm.
        by destruct (inherited (Types.category m)). }
      destruct (categories_total _ Hall) as [cats Hc]. congruence.
    + intros Hex. destruct (categories filtered) as [cats|] eqn:E; [|done].
      destruct (categories_inv _ _ E) as [Hall _].
      apply Exists_exists in Hex as (m & Hin & Hm).
      rewrite Forall_forall in Hall. rewrite (Hall m Hin) in Hm. done.
  - intros cats H c. by destruct (categories_inv _ _ H) as [_ ->].
  - intros cats m H Hin. destruct (categories_inv _ _ H) as [_ Hcats].
    assert (∀ c g, cats !! c = Some g →
                   ∀ x, x ∈ g ↔ x ∈ filtered ∧ Types.category x = c) as Hg.
    { intros c g Hc x. rewrite Hcats in Hc. unfold Aux.group_of in Hc.
      assert (g = MachineUtils.getMachinesByCategory c filtered) as ->.
      { by destruct (MachineUtils.getMachinesByCategory c filtered);
          simplify_eq. }
      unfold MachineUtils.getMachinesByCategory.
      by rewrite !list_elem_of_In, filter_In, bool_decide_eq_true. }
    assert (m ∈ MachineUtils.getMachinesByCategory (Types.category m) filtered)
      as Hm.
    { unfold MachineUtils.getMachinesByCategory.
      apply list_elem_of_In, filter_In. split; [by apply list_elem_of_In|].
      by apply bool_decide_eq_true. }
    destruct (MachineUtils.getMachinesByCategory (Types.category m) filtered)
      as [|y g] eqn:E; [by apply elem_of_nil in Hm|].
    exists (y :: g). split; [|split; [done|]].
    + rewrite Hcats. unfold Aux.group_of. by rewrite E.
    + intros c g' Hc Hin'. by destruct (proj1 (Hg c g' Hc m) Hin').
Qed.

Lemma categories_groups_witness :
  ∃ cats, categories Spec.example_catalog = Some cats ∧
          cats !! "Tolvas" = Some Spec.example_catalog ∧
          cats !! "Sembradoras" = None.
Proof.
  destruct (categories Spec.example_catalog) as [cats|] eqn:E.
  - exists cats. split; [done|].
    destruct (categories_groups Spec.example_catalog) as (_ & H & _).
    split; rewrite (H cats E); reflexivity.
  - discriminate E.
Defined.

End SelectorFacts.

(** ** More on line items *)

Section LineItemFacts.

Implicit Types (prev lineItems : list App.LineItem) (it : App.LineItem).
Implicit Types (machines : list Machine).

Lemma set_quantity_same it : App.set_quantity (App.quantity it) it = it.
Proof. by destruct it. Qed.

Lemma select_codes_present (code : string) (now : Z) prev it :
  it ∈ prev → App.machineCode it = code →
  App.machineCode <$> App.handleMachineSelect code now prev
  = App.machineCode <$> prev.
Proof.
  intros Hin Hc. rewrite (select_present code now prev it Hin Hc).
  rewrite <-list_fmap_compose. apply list_fmap_ext.
  intros _ x _. simpl. by case_bool_decide.
Qed.

Lemma select_cases (code : string) (now : Z) prev :
  (∀ it, it ∈ prev → App.machineCode it ≠ code) ∨
  (∃ it, it ∈ prev ∧ App.machineCode it = code).
Proof.
  destruct (decide (code ∈ App.machineCode <$> prev)) as [Hin|Hnin].
  - right. apply list_elem_of_fmap in Hin as (it & -> & Hin). eauto.
  - left. intros it Hin Hc. apply Hnin, list_elem_of_fmap. eauto.
Qed.

Lemma select_contains (code : string) (now : Z) prev :
  ∃ it, it ∈ App.handleMachineSelect code now prev ∧
        App.machineCode it = code.
Proof.
  destruct (select_cases code now prev) as [Habs|(it & Hin & Hc)].
  - rewrite select_absent by done. eexists. split.
    + apply elem_of_app. right. left.
    + done.
  - assert (code ∈ App.machineCode <$> App.handleMachineSelect code now prev)
      as H.
    { rewrite (select_codes_present code now prev it Hin Hc).
      apply list_elem_of_fmap. eauto. }
    apply list_elem_of_fmap in H as (x & -> & Hx). eauto.
Qed.

Lemma distinct_select (code : string) (now : Z) prev :
  Aux.distinct_machines prev →
  Aux.distinct_machines (App.handleMachineSelect code now prev).
Proof.
  unfold Aux.distinct_machines. intros H.
  destruct (select_cases code now prev) as [Habs|(it & Hin & Hc)].
  - rewrite select_absent by done. rewrite fmap_app. simpl.
    apply NoDup_app. split; [done|]. split; [|apply NoDup_singleton].
    intros c Hc Hc'. apply list_elem_of_singleton in Hc' as ->.
    apply list_elem_of_fmap in Hc as (it & Hit & Hin). by eapply Habs.
  - by rewrite (select_codes_present code now prev it Hin Hc).
Qed.

Lemma distinct_remove (i : string) prev :
  Aux.distinct_machines prev →
  Aux.distinct_machines (App.removeLineItem i prev).
Proof.
  unfold Aux.distinct_machines, App.removeLineItem.
  induction prev as [|x l IH]; simpl; [done|].
  intros H. apply NoDup_cons in H as [Hx Hl].
  destruct (negb _); simpl; [|by apply IH].
  apply NoDup_cons. split; [|by apply IH].
  intros Hin. apply Hx. apply list_elem_of_fmap in Hin as (y & -> & Hy).
  apply list_elem_of_fmap. exists y. split; [done|].
  apply list_elem_of_In, filter_In in Hy as [Hy _]. by apply list_elem_of_In.
Qed.

Lemma distinct_adjust (i : string) (delta : Qc) prev :
  Aux.distinct_machines prev →
  Aux.distinct_machines (App.adjustQuantity i delta prev).
Proof.
  unfold Aux.distinct_machines, App.adjustQuantity. intros H.
  replace (App.machineCode <$> List.map _ prev)
    with (App.machineCode <$> prev); [done|].
  rewrite <-list_fmap_compose. apply list_fmap_ext.
  intros _ x _. simpl. by case_bool_decide.
Qed.

Lemma distinct_update (i : string) (value : JS.number) prev :
  Aux.distinct_machines prev →
  Aux.distinct_machines (App.updateQuantityInput i value prev).
Proof.
  unfold Aux.distinct_machines, App.updateQuantityInput. intros H.
  replace (App.machineCode <$> List.map _ prev)
    with (App.machineCode <$> prev); [done|].
  rewrite <-list_fmap_compose. apply list_fmap_ext.
  intros _ x _. simpl. by case_bool_decide.
Qed.

(** X6: the quotation never holds two lines of the same machine: each of
    the four line-item handlers keeps the machine codes of the list
    pairwise different, so every list the handlers can produce from the
    empty quotation has them pairwise different. *)
Theorem one_line_per_machine prev :
  (Aux.distinct_machines prev →
   (∀ code now,
      Aux.distinct_machines (App.handleMachineSelect code now prev)) ∧
   (∀ i, Aux.distinct_machines (App.removeLineItem i prev)) ∧
   (∀ i delta, Aux.distinct_machines (App.adjustQuantity i delta prev)) ∧
   (∀ i value,
      Aux.distinct_machines (App.updateQuantityInput i value prev))) ∧
  (Spec.reachable prev → Aux.distinct_machines prev).
Proof.
  split.
  - auto using distinct_select, distinct_remove, distinct_adjust,
      distinct_update.
  - induction 1;
      auto using distinct_select, distinct_remove, distinct_adjust,
        distinct_update.
    apply NoDup_nil_2.
Qed.

Lemma one_line_per_machine_witness :
  Aux.distinct_machines
    (App.handleMachineSelect "X1" 1700000000005 Spec.example_items) ∧
  Aux.distinct_machines
    (App.handleMachineSelect "X1" 2
       (App.handleMachineSelect "X1" 1 [])).
Proof.
  split.
  - destruct (one_line_per_machine Spec.example_items) as [H _].
    apply H. unfold Aux.distinct_machines. simpl.
    repeat (apply NoDup_cons; split;
            [intros Hin; repeat (apply elem_of_cons in Hin as [Hin|Hin];
                                 [discriminate|]);
             by apply elem_of_nil in Hin |]).
    apply NoDup_nil_2.
  - destruct (one_line_per_machine
                (App.handleMachineSelect "X1" 2
                   (App.handleMachineSelect "X1" 1 []))) as [_ H].
    apply H. repeat constructor.
Defined.

(** X7: a click in the selector leaves a line of the clicked machine in the
    quotation, whenever the quotation has a line already or the machine's
    code is not the empty string, and keeps every quantity at one or more.
    A click on the machine of the last line changes nothing, and on an empty
    quotation a machine whose code is the empty string is not added. *)
Theorem selectorClick_selects (machineCode : string) (now : Z) lineItems :
  (lineItems ≠ [] ∨ machineCode ≠ EmptyString →
   ∃ it, it ∈ selectorClick machineCode now lineItems ∧
         App.machineCode it = machineCode) ∧
  (Forall Spec.valid_item lineItems →
   Forall Spec.valid_item (selectorClick machineCode now lineItems)) ∧
  (∀ l it, lineItems = l ++ [it] → App.machineCode it = machineCode →
           selectorClick machineCode now lineItems = lineItems) ∧
  selectorClick EmptyString now [] = [].
Proof.
  split; [|split; [|split]].
  - intros H. unfold selectorClick, MachinerySelector.handleMachineClick.
    simpl. case_bool_decide as Hsel; simpl; [|apply select_contains].
    unfold App.selectedMachine in Hsel.
    destruct (last lineItems) as [it|] eqn:El; simpl in Hsel.
    + exists it. split; [|done]. by eapply last_Some_elem_of.
    + apply last_None in El. destruct H as [H|H]; congruence.
  - intros H. unfold selectorClick.
    destruct (MachinerySelector.handleMachineClick _ _ _); [|done].
    by apply select_valid.
  - intros l it -> Hc. unfold selectorClick, App.selectedMachine.
    rewrite last_snoc. simpl.
    unfold MachinerySelector.handleMachineClick. simpl.
    by rewrite bool_decide_eq_true_2.
  - done.
Qed.

Lemma selectorClick_selects_witness :
  (∃ it, it ∈ selectorClick "X2" 1700000000009 Spec.example_items ∧
         App.machineCode it = "X2"%string) ∧
  selectorClick "X2" 1700000000009 Spec.example_items = Spec.example_items.
Proof.
  destruct (selectorClick_selects "X2" 1700000000009 Spec.example_items)
    as (Hin & _ & Hlast & _).
  split.
  - apply Hin. left. discriminate.
  - apply (Hlast
             [ {| App.id := "X1-1700000000000"; App.machineCode := "X1";
                  App.quantity := JS.num 2 |} ]
             {| App.id := "X2-1700000000001"; App.machineCode := "X2";
                App.quantity := JS.num 1 |}); reflexivity.
Defined.

(** X8: plus then minus is a round trip on whole quantities.  When the
    line's quantity is a whole number of at least one and the step is a
    whole number that is not negative, raising the quantity by the step and
    then lowering it by the same step gives the list back.  The quantity
    raised is to stay within 2^53, the range in which the additions of a
    binary64 number are exact; beyond it the code itself loses the unit. *)
Theorem adjust_round_trip (i : string) (delta : Z) prev :
  (0 ≤ delta)%Z →
  Forall (λ it, App.id it = i →
                ∃ q : Z, App.quantity it = JS.num q ∧
                         (1 ≤ q)%Z ∧ (q + delta ≤ 2 ^ 53)%Z) prev →
  App.adjustQuantity i (JS.num (- delta))
    (App.adjustQuantity i (JS.num delta) prev) = prev.
Proof.
  intros Hd H. unfold App.adjustQuantity.
  induction H as [|it l Hit _ IH]; simpl; [done|]. f_equal; [|done].
  destruct (decide (App.id it = i)) as [Hi|Hi].
  2: { rewrite (bool_decide_eq_false_2 (App.id it = i)) by done.
       by rewrite (bool_decide_eq_false_2 (App.id it = i)). }
  rewrite (bool_decide_eq_true_2 (App.id it = i)) by done. simpl.
  rewrite (bool_decide_eq_true_2 (App.id it = i)) by done.
  destruct (Hit Hi) as (q & Hq & Hq1 & _). rewrite Hq. unfold JS.num.
  rewrite <-Z2Qc_inj_add.
  assert (1 ≤ Qc_of_Z (q + delta)) as Hup.
  { rewrite <-Z2Qc_inj_1. apply (proj1 (Z2Qc_inj_le _ _)). lia. }
  rewrite (Math_max_r _ _ Hup). rewrite <-Z2Qc_inj_add.
  replace (q + delta + - delta)%Z with q by lia.
  assert (1 ≤ Qc_of_Z q) as Hq1'.
  { rewrite <-Z2Qc_inj_1. by apply (proj1 (Z2Qc_inj_le _ _)). }
  rewrite (Math_max_r _ _ Hq1'). unfold App.set_quantity. simpl.
  destruct it. simpl in Hq. by rewrite Hq.
Qed.

Lemma adjust_round_trip_witness :
  App.adjustQuantity "X2-1700000000001" (JS.num (- 1))
    (App.adjustQuantity "X2-1700000000001" (JS.num 1) Spec.example_items)
  = Spec.example_items.
Proof.
  apply (adjust_round_trip "X2-1700000000001" 1 Spec.example_items).
  - lia.
  - repeat constructor; simpl; intros _;
      [exists 2%Z | exists 1%Z]; (split; [reflexivity | lia]).
Defined.

(** X9: adding then removing is a round trip.  Selecting a machine that
    the list does not hold and then removing the line just added gives the
    list back, provided no line of the list already carries the new line's
    id. *)
Theorem select_then_remove (code : string) (now : Z) prev :
  (∀ it, it ∈ prev → App.machineCode it ≠ code) →
  (∀ it, it ∈ prev → App.id it ≠ code +:+ "-" +:+ pretty now) →
  App.removeLineItem (code +:+ "-" +:+ pretty now)
    (App.handleMachineSelect code now prev) = prev.
Proof.
  intros Hc Hi. rewrite select_absent by done.
  unfold App.removeLineItem. rewrite List.filter_app. simpl.
  rewrite bool_decide_eq_true_2 by done. simpl. rewrite app_nil_r.
  induction prev as [|x l IH]; simpl; [done|].
  rewrite bool_decide_eq_false_2 by (apply Hi; left). simpl.
  f_equal. apply IH; intros it Hit; [apply Hc | apply Hi]; by right.
Qed.

Lemma select_then_remove_witness :
  App.removeLineItem "X3-7" (App.handleMachineSelect "X3" 7 Spec.example_items)
  = Spec.example_items.
Proof.
  apply (select_then_remove "X3" 7 Spec.example_items); intros it Hin;
    repeat (apply elem_of_cons in Hin as [->|Hin]; [discriminate|]);
    by apply elem_of_nil in Hin.
Defined.

End LineItemFacts.

(** ** More on pricing *)

Section PricingFacts.

Implicit Types (machines : list Machine) (lineItems : list App.LineItem).
Implicit Types (form : App.QuotationForm).

(** X10: selecting a machine that has no line yet prices one more line and
    leaves the others alone.  The priced lines are the earlier ones followed
    by the line of the new machine, with the unit price the catalog gives
    its code (0 for a code the catalog does not have) and the quantity one;
    the grand subtotal is the earlier grand subtotal plus the subtotal of
    the new line, which is that unit price. *)
Theorem select_adds_unit_price machines (code : string) (now : Z)
    lineItems :
  (∀ it, it ∈ lineItems → App.machineCode it ≠ code) →
  let added := App.handleMachineSelect code now lineItems in
  let price := Spec.catalog_price machines code in
  (∃ l, App.lineItemDetails machines added
        = App.lineItemDetails machines lineItems ++ [l] ∧
        App.machineCode (App.item l) = code ∧
        App.quantity (App.item l) = 1 ∧
        App.unitPrice l = price ∧ App.subtotal l = price * 1 ∧
        App.grandSubtotal machines added
        = App.grandSubtotal machines lineItems + App.subtotal l) ∧
  App.grandSubtotal machines added
  = App.grandSubtotal machines lineItems + price.
Proof.
  intros Habs added price. subst added price.
  rewrite select_absent by done. unfold App.grandSubtotal.
  unfold App.lineItemDetails. rewrite List.map_app, fold_left_app. simpl.
  rewrite catalog_price_lookup. split.
  - eexists. split; [done|]. simpl. done.
  - f_equal. ring.
Qed.

Lemma select_adds_unit_price_witness :
  App.grandSubtotal Spec.example_catalog
    (App.handleMachineSelect "X2" 1700000000004
       [ {| App.id := "X1-1700000000000"; App.machineCode := "X1";
            App.quantity := JS.num 2 |} ])
  = App.grandSubtotal Spec.example_catalog
      [ {| App.id := "X1-1700000000000"; App.machineCode := "X1";
           App.quantity := JS.num 2 |} ]
    + Spec.catalog_price Spec.example_catalog "X2".
Proof.
  apply (select_adds_unit_price Spec.example_catalog "X2" 1700000000004).
  intros it Hin.
  apply elem_of_cons in Hin as [->|Hin]; [discriminate|].
  by apply elem_of_nil in Hin.
Defined.

(** X12: a quick-discount button sets its percentage, unless that
    percentage is the current one, which it clears; pressing it twice ends
    at the original percentage when that was the button's and at 0
    otherwise.  For a button percentage in [0, 100], over a catalog and
    line items that meet the data model, the grand total after the press
    lies between zero and the grand subtotal. *)
Theorem setQuickDiscount_toggle (pct : Qc) machines lineItems form :
  (App.discountPercent form ≠ pct →
   App.discountPercent (App.setQuickDiscount pct form) = pct) ∧
  (App.discountPercent form = pct →
   App.discountPercent (App.setQuickDiscount pct form) = 0) ∧
  App.discountPercent (App.setQuickDiscount pct (App.setQuickDiscount pct form))
  = (if bool_decide (App.discountPercent form = pct) then pct else 0) ∧
  (0 ≤ pct ≤ JS.num 100 →
   Forall Spec.valid_machine machines →
   Forall Spec.valid_item lineItems →
   0 ≤ App.grandTotal machines lineItems (App.setQuickDiscount pct form)
     ≤ App.grandSubtotal machines lineItems).
Proof.
  split; [|split; [|split]].
  - intros H. unfold App.setQuickDiscount. simpl.
    by rewrite bool_decide_eq_false_2.
  - intros H. unfold App.setQuickDiscount. simpl.
    by rewrite bool_decide_eq_true_2.
  - unfold App.setQuickDiscount. simpl.
    destruct (decide (App.discountPercent form = pct)) as [H1|H1].
    + rewrite !(bool_decide_eq_true_2 _ H1).
      destruct (decide (0 = pct)) as [H2|H2].
      * by rewrite (bool_decide_eq_true_2 _ H2).
      * by rewrite (bool_decide_eq_false_2 _ H2).
    + rewrite !(bool_decide_eq_false_2 _ H1).
      by rewrite bool_decide_eq_true_2.
  - intros Hp Hm Hi.
    pose proof (grandSubtotal_nonneg machines lineItems Hm Hi) as Hs.
    assert (0 ≤ App.discountPercent (App.setQuickDiscount pct form)
              ≤ JS.num 100) as Hd.
    { unfold App.setQuickDiscount. simpl. case_bool_decide; [|done].
      split; [apply Qcle_refl | qc_eval]. }
    destruct (discountAmount_bounds machines lineItems
                (App.setQuickDiscount pct form) Hs Hd) as [Hge Hle].
    unfold App.grandTotal. split.
    + apply Qcle_minus_iff in Hle.
      by replace (App.grandSubtotal machines lineItems
                  - App.discountAmount machines lineItems
                      (App.setQuickDiscount pct form))
        with (App.grandSubtotal machines lineItems
              + - App.discountAmount machines lineItems
                    (App.setQuickDiscount pct form)) by ring.
    + apply Qcle_minus_iff.
      by replace (App.grandSubtotal machines lineItems
                  + - (App.grandSubtotal machines lineItems
                       - App.discountAmount machines lineItems
                           (App.setQuickDiscount pct form)))
        with (App.discountAmount machines lineItems
                (App.setQuickDiscount pct form)) by ring.
Qed.

Lemma setQuickDiscount_toggle_witness :
  App.discountPercent (App.setQuickDiscount (JS.num 15) (Spec.form_with 0))
  = JS.num 15 ∧
  App.discountPercent
    (App.setQuickDiscount (JS.num 15) (Spec.form_with (JS.num 15))) = 0 ∧
  0 ≤ App.grandTotal Spec.example_catalog Spec.example_items
        (App.setQuickDiscount (JS.num 15) (Spec.form_with 0))
    ≤ App.grandSubtotal Spec.example_catalog Spec.example_items.
Proof.
  split; [|split].
  - destruct (setQuickDiscount_toggle (JS.num 15) Spec.example_catalog
                Spec.example_items (Spec.form_with 0)) as (H & _).
    apply H. qc_eval.
  - destruct (setQuickDiscount_toggle (JS.num 15) Spec.example_catalog
                Spec.example_items (Spec.form_with (JS.num 15)))
      as (_ & H & _).
    apply H. reflexivity.
  - destruct (setQuickDiscount_toggle (JS.num 15) Spec.example_catalog
                Spec.example_items (Spec.form_with 0)) as (_ & _ & _ & H).
    apply H.
    + split; qc_eval.
    + repeat constructor; unfold Spec.valid_machine; simpl; qc_eval.
    + repeat constructor; unfold Spec.valid_item; simpl; qc_eval.
Defined.

End PricingFacts.

(** ** Submitting the quotation *)

Section SubmitFacts.

Variable toString : Qc → string.
Variable toLocaleString : Qc → string.

Implicit Types (machines : list Machine) (lineItems : list App.LineItem).
Implicit Types (form : App.QuotationForm) (st : App.SubmitState).

Lemma extraLines_items machines lineItems :
  App.extraLines toString toLocaleString
    (App.lineItemDetails machines lineItems)
  = String.concat App.nl
      (imap (Aux.product_line toString toLocaleString machines) lineItems).
Proof.
  unfold App.extraLines, App.lineItemDetails. f_equal.
  change (List.map ?f lineItems) with (f <$> lineItems).
  rewrite imap_fmap. apply imap_ext. intros k it _. simpl.
  unfold Aux.product_line. rewrite catalog_price_lookup.
  by destruct (MachineUtils.findMachineByCode _ machines).
Qed.

Lemma notesText_items machines lineItems form :
  App.notesText toString toLocaleString
    (App.lineItemDetails machines lineItems) form
  = Aux.expected_notes toString toLocaleString machines lineItems form.
Proof.
  unfold App.notesText, Aux.expected_notes.
  rewrite extraLines_items. unfold App.lineItemDetails.
  rewrite length_map. f_equal.
  unfold App.filter_Boolean, App.and_text, App.str_and_text, Aux.entry.
  destruct (bool_decide (1 < length lineItems)%nat),
           (decide (App.clientAddress form = EmptyString)) as [Ha|Ha],
           (bool_decide (0 < App.discountPercent form)),
           (decide (App.notes form = EmptyString)) as [Hn|Hn];
    rewrite ?(bool_decide_eq_true_2 _ Ha), ?(bool_decide_eq_false_2 _ Ha),
      ?(bool_decide_eq_true_2 _ Hn), ?(bool_decide_eq_false_2 _ Hn);
    reflexivity.
Qed.

(** X13: with no line item, [handleSubmit] sends nothing, raises its alert
    and leaves the state alone.  With line items it sends one request.  Its
    machine code is that of the first line, its client fields are those of
    the form, and its flag says whether the percentage is positive.  Its
    notes hold, one per line and in this order: when there is more than one
    line item, the heading and a numbered line for every line item, with
    the machine's name, code, quantity and subtotal; the address when it is
    not empty; the discount percentage when it is positive; the form's
    notes when they are not empty.  Afterwards the form is not generating;
    the last quotation is the new one on an ok answer and the previous one
    otherwise, with an alert. *)
Theorem handleSubmit_request machines lineItems form
    (server : App.QuotationData → App.SubmitOutcome) st :
  let r := App.handleSubmit toString toLocaleString machines lineItems form
             server st in
  (lineItems = [] →
   App.request r = None ∧ App.after r = st ∧
   App.alert r
   = Some "Seleccioná al menos una máquina antes de generar la cotización."
       %string) ∧
  (∀ first rest,
     lineItems = first :: rest →
     ∃ q, App.request r = Some q ∧
          App.qd_machineCode q = App.machineCode first ∧
          App.qd_clientCuit q = App.clientCuit form ∧
          App.qd_clientName q = App.clientName form ∧
          App.qd_clientPhone q = App.clientPhone form ∧
          App.qd_clientEmail q = App.clientEmail form ∧
          App.qd_clientCompany q = App.clientCompany form ∧
          App.qd_notes q
          = Aux.expected_notes toString toLocaleString machines lineItems
              form ∧
          (App.qd_applyDiscount q = true ↔ 0 < App.discountPercent form) ∧
          App.isGenerating (App.after r) = false ∧
          (∀ url, server q = App.SubmitOk url →
                  App.lastQuotation (App.after r) = Some url ∧
                  App.alert r = None) ∧
          ((∀ url, server q ≠ App.SubmitOk url) →
           App.lastQuotation (App.after r) = App.lastQuotation st ∧
           App.alert r
           = Some
               "Error al generar la cotización. Por favor, inténtalo de nuevo."
               %string)).
Proof.
  intros r. subst r. split.
  - by intros ->.
  - intros first rest ->.
    pose proof (notesText_items machines (first :: rest) form) as Hnotes.
    unfold App.handleSubmit. simpl. simpl in Hnotes.
    match goal with
    | |- context [server ?q] => exists q; destruct (server q) eqn:E
    end; simpl;
      (do 7 (split; [done|]));
      (split; [exact Hnotes|]);
      (split; [apply bool_decide_eq_true|]);
      (split; [done|]); split.
    + by intros url [= ->].
    + intros H. by destruct (H objectUrl).
    + by intros url [=].
    + done.
    + by intros url [=].
    + done.
Qed.

End SubmitFacts.

Lemma handleSubmit_request_witness :
  App.request
    (App.handleSubmit (λ _, "n"%string) (λ _, "n"%string)
       Spec.example_catalog [] (Spec.form_with (JS.num 10))
       Aux.pdf_server Aux.idle_submit) = None ∧
  ∃ q, App.request
         (App.handleSubmit (λ _, "n"%string) (λ _, "n"%string)
            Spec.example_catalog Spec.example_items
            (Spec.form_with (JS.num 10)) Aux.pdf_server Aux.idle_submit)
       = Some q ∧
       App.qd_machineCode q = "X1"%string ∧
       App.qd_notes q
       = String.concat App.nl
           [ "Productos cotizados:"; "1. X1 (X1) xn — $n";
             "2. X2 (X2) xn — $n"; "Descuento global: n%" ]%string.
Proof.
  destruct (handleSubmit_request (λ _, "n"%string) (λ _, "n"%string)
              Spec.example_catalog [] (Spec.form_with (JS.num 10))
              Aux.pdf_server Aux.idle_submit) as (H & _).
  destruct (H eq_refl) as (Hnone & _).
  split; [exact Hnone|].
  destruct (handleSubmit_request (λ _, "n"%string) (λ _, "n"%string)
              Spec.example_catalog Spec.example_items
              (Spec.form_with (JS.num 10))
              Aux.pdf_server Aux.idle_submit) as (_ & H').
  destruct (H' _ _ eq_refl) as (q & Hq & Hc & _ & _ & _ & _ & _ & Hn & _).
  exists q. split; [exact Hq|]. split; [exact Hc|].
  rewrite Hn. vm_compute. reflexivity.
Defined.

(** ** More on catalog administration *)

Section CatalogFacts.

Import AdminPanel.

Implicit Types (st : State) (m : Machine).

Lemma deactivate_map_idemp (a : Z) (l : list Machine) :
  List.map (λ m, if bool_decide (Types.id m = a)
                 then Types.set_active false m else m)
    (List.map (λ m, if bool_decide (Types.id m = a)
                    then Types.set_active false m else m) l)
  = List.map (λ m, if bool_decide (Types.id m = a)
                   then Types.set_active false m else m) l.
Proof.
  rewrite List.map_map. apply List.map_ext. intros m.
  destruct (decide (Types.id m = a)) as [H|H].
  - rewrite (bool_decide_eq_true_2 _ H). simpl.
    by rewrite (bool_decide_eq_true_2 _ H).
  - by rewrite !(bool_decide_eq_false_2 _ H).
Qed.

Lemma deactivate_map_comm (a b : Z) (l : list Machine) :
  List.map (λ m, if bool_decide (Types.id m = a)
                 then Types.set_active false m else m)
    (List.map (λ m, if bool_decide (Types.id m = b)
                    then Types.set_active false m else m) l)
  = List.map (λ m, if bool_decide (Types.id m = b)
                   then Types.set_active false m else m)
      (List.map (λ m, if bool_decide (Types.id m = a)
                      then Types.set_active false m else m) l).
Proof.
  rewrite !List.map_map. apply List.map_ext. intros m.
  destruct (decide (Types.id m = a)) as [Ha|Ha],
           (decide (Types.id m = b)) as [Hb|Hb];
    rewrite ?(bool_decide_eq_true_2 _ Ha), ?(bool_decide_eq_false_2 _ Ha),
      ?(bool_decide_eq_true_2 _ Hb), ?(bool_decide_eq_false_2 _ Hb);
    simpl;
    rewrite ?(bool_decide_eq_true_2 _ Ha), ?(bool_decide_eq_false_2 _ Ha),
      ?(bool_decide_eq_true_2 _ Hb), ?(bool_decide_eq_false_2 _ Hb);
    done.
Qed.

(** X15: an update replaces, position by position, every machine that has
    the id of the updated machine and leaves the others as they are; the
    ids of the list do not change; when no machine has that id the list is
    unchanged; and applying the same update twice is the same as applying
    it once. *)
Theorem update_replaces_by_id (u : Machine) st :
  let st' := handleUpdateMachine u st in
  (∀ (k : nat) m,
     machines st !! k = Some m →
     machines st' !! k
     = Some (if bool_decide (Types.id m = Types.id u) then u else m)) ∧
  length (machines st') = length (machines st) ∧
  Types.id <$> machines st' = Types.id <$> machines st ∧
  ((∀ m, m ∈ machines st → Types.id m ≠ Types.id u) →
   machines st' = machines st) ∧
  machines (handleUpdateMachine u st') = machines st'.
Proof.
  intros st'. subst st'. unfold handleUpdateMachine. simpl.
  split; [|split; [|split; [|split]]].
  - intros k m Hk. by rewrite list_lookup_fmap, Hk.
  - apply length_map.
  - rewrite <-list_fmap_compose. apply list_fmap_ext.
    intros _ m _. simpl. by case_bool_decide.
  - intros H. induction (machines st) as [|x l IH]; simpl; [done|].
    rewrite bool_decide_eq_false_2 by (apply H; left).
    f_equal. apply IH. intros m Hm. apply H. by right.
  - rewrite List.map_map. apply List.map_ext. intros m.
    destruct (decide (Types.id m = Types.id u)) as [H|H].
    + rewrite (bool_decide_eq_true_2 _ H).
      by rewrite bool_decide_eq_true_2.
    + by rewrite !(bool_decide_eq_false_2 _ H).
Qed.

Lemma update_replaces_by_id_witness :
  machines (handleUpdateMachine (Spec.machine_of 7 "X7" None)
              Aux.example_admin)
  = machines Aux.example_admin ∧
  machines (handleUpdateMachine (Spec.machine_of 2 "X2b" None)
              Aux.example_admin) !! 1%nat
  = Some (Spec.machine_of 2 "X2b" None).
Proof.
  split.
  - destruct (update_replaces_by_id (Spec.machine_of 7 "X7" None)
                Aux.example_admin) as (_ & _ & _ & H & _).
    apply H. intros m Hin.
    repeat (apply elem_of_cons in Hin as [->|Hin]; [discriminate|]).
    by apply elem_of_nil in Hin.
  - destruct (update_replaces_by_id (Spec.machine_of 2 "X2b" None)
                Aux.example_admin) as (H & _).
    apply (H 1%nat (Spec.machine_of 2 "X2" (Some (JS.num 500)))).
    reflexivity.
Defined.

(** X16: deactivating is idempotent and order does not matter: a second
    successful deactivation of the same machine changes no machine, and
    two successful deactivations give the same machines in either order. *)
Theorem deactivation_composes (a b : Z) st :
  let del i s := handleDeleteMachine i true ResponseOk s in
  machines (del a (del a st)) = machines (del a st) ∧
  machines (del a (del b st)) = machines (del b (del a st)).
Proof.
  intros del. subst del. simpl. split.
  - apply deactivate_map_idemp.
  - apply deactivate_map_comm.
Qed.

End CatalogFacts.

(** ** Options *)

Section OptionFacts.

Import AdminPanel.

Variable parseFloat : string → JS.number.

Implicit Types (st : State) (ed : OptionEditor).

(** X17: creating or updating an option with an empty name or an empty
    price sends nothing and changes nothing.  Otherwise one request goes
    out with the name and the description as typed and the parsed price;
    the option list changes on an ok answer only: a created option goes to
    the front, an update replaces the options of the given id position by
    position; the machines are never touched. *)
Theorem option_form_guard (server : OptionBody → OptionResponse)
    (optionId : Z) ed st :
  (optionFormIncomplete (optionForm ed) = true →
   handleCreateOption parseFloat server ed st = (st, ed, None) ∧
   handleUpdateOption parseFloat optionId server ed st = (st, ed, None)) ∧
  (optionFormIncomplete (optionForm ed) = false →
   let body := {| ob_name := of_name (optionForm ed);
                  ob_price := parseFloat (of_price (optionForm ed));
                  ob_description := of_description (optionForm ed) |} in
   let created := handleCreateOption parseFloat server ed st in
   let updated := handleUpdateOption parseFloat optionId server ed st in
   created.2 = Some body ∧ updated.2 = Some body ∧
   ob_name body ≠ EmptyString ∧
   machines created.1.1 = machines st ∧
   machines updated.1.1 = machines st ∧
   (∀ saved, server body = OptionOk saved →
      options created.1.1 = saved :: options st ∧
      optionForm created.1.2 = emptyOptionForm ∧
      (∀ (k : nat) opt,
         options st !! k = Some opt →
         options updated.1.1 !! k
         = Some (if bool_decide (Types.opt_id opt = optionId)
                 then saved else opt))) ∧
   ((∀ saved, server body ≠ OptionOk saved) →
    options created.1.1 = options st ∧ created.1.2 = ed ∧
    options updated.1.1 = options st ∧ updated.1.2 = ed)).
Proof.
  split.
  - intros H. unfold handleCreateOption, handleUpdateOption.
    by rewrite H.
  - intros H body created updated. subst created updated.
    unfold handleCreateOption, handleUpdateOption. rewrite H.
    change (optionBody parseFloat (optionForm ed)) with body.
    assert (ob_name body ≠ EmptyString) as Hname.
    { unfold optionFormIncomplete in H.
      apply orb_false_iff in H as [H _].
      by apply bool_decide_eq_false in H. }
    destruct (server body) as [saved| |] eqn:E; simpl;
      (do 5 (split; [done|])); split.
    + intros saved' [= <-]. split; [done|]. split; [done|].
      intros k opt Hk. by rewrite list_lookup_fmap, Hk.
    + intros Hno. by destruct (Hno saved).
    + by intros saved [=].
    + done.
    + by intros saved [=].
    + done.
Qed.

(** X18: deactivating an option never removes it: whatever the answers,
    the option list keeps its length and the ids at each position; on
    success the options of the given id are there inactive with every
    other field as before and the other options unchanged; the machines
    are never touched. *)
Theorem option_deactivation (optionId : Z) st :
  (∀ confirmed outcome,
     let st' := handleDeleteOption optionId confirmed outcome st in
     length (options st') = length (options st) ∧
     Types.opt_id <$> options st' = Types.opt_id <$> options st ∧
     machines st' = machines st ∧
     (confirmed = false ∨ outcome ≠ ResponseOk →
      options st' = options st)) ∧
  (∀ (k : nat) opt,
     options st !! k = Some opt →
     options (handleDeleteOption optionId true ResponseOk st) !! k
     = Some (if bool_decide (Types.opt_id opt = optionId)
             then {| Types.opt_id := Types.opt_id opt;
                     Types.opt_name := Types.opt_name opt;
                     Types.opt_price := Types.opt_price opt;
                     Types.opt_description := Types.opt_description opt;
                     Types.opt_active := false |}
             else opt)).
Proof.
  split.
  - intros confirmed outcome st'. subst st'.
    destruct confirmed, outcome; simpl;
      (split; [|split; [|split]]); try done.
    + apply length_map.
    + rewrite <-list_fmap_compose. apply list_fmap_ext.
      intros _ opt _. simpl. by case_bool_decide.
    + intros [?|?]; done.
  - intros k opt Hk. simpl. by rewrite list_lookup_fmap, Hk.
Qed.

End OptionFacts.

Lemma option_form_guard_witness :
  AdminPanel.handleCreateOption (λ _, JS.NaN) Aux.option_server Aux.blank_editor
    Aux.empty_admin
  = (Aux.empty_admin, Aux.blank_editor, None) ∧
  (AdminPanel.handleCreateOption (λ _, JS.Num (JS.num 350)) Aux.option_server
     Aux.filled_editor Aux.empty_admin).2
  = Some {| AdminPanel.ob_name := "Lona";
            AdminPanel.ob_price := JS.Num (JS.num 350);
            AdminPanel.ob_description := EmptyString |}.
Proof.
  split.
  - destruct (option_form_guard (λ _, JS.NaN) Aux.option_server 0
                Aux.blank_editor Aux.empty_admin) as [H _].
    destruct H as [H _]; [reflexivity | exact H].
  - destruct (option_form_guard (λ _, JS.Num (JS.num 350)) Aux.option_server
                0 Aux.filled_editor Aux.empty_admin) as [_ H].
    destruct H as [H _]; [reflexivity | exact H].
Defined.

Lemma option_deactivation_witness :
  let st :=
    {| AdminPanel.machines := []; AdminPanel.options := [Aux.example_option];
       AdminPanel.notification :=
         {| AdminPanel.type := None; AdminPanel.message := EmptyString |} |} in
  AdminPanel.options
    (AdminPanel.handleDeleteOption 4 true AdminPanel.ResponseOk st) !! 0%nat
  = Some (AdminPanel.set_option_active false Aux.example_option) ∧
  AdminPanel.options
    (AdminPanel.handleDeleteOption 4 false AdminPanel.ResponseOk st)
  = [Aux.example_option].
Proof.
  intros st. destruct (option_deactivation 4 st) as [Hany Hk]. split.
  - apply (Hk 0%nat Aux.example_option). reflexivity.
  - destruct (Hany false AdminPanel.ResponseOk) as (_ & _ & _ & H).
    apply H. by left.
Defined.

(** ** The option check boxes of the machine form *)

Section OptionToggleFacts.

Implicit Types (prev : list Z).

(** X19: a click on an option's check box flips whether the option is
    among the selected ids and changes the membership of no other id; ids
    stay without repetition; from a list without the id, two clicks give
    the list back, and from a list with the id (and no repetition) two
    clicks give a rearrangement of it. *)
Theorem handleOptionToggle_flips (optionId : Z) prev :
  (optionId ∈ MachineForm.handleOptionToggle optionId prev
   ↔ optionId ∉ prev) ∧
  (∀ other, other ≠ optionId →
     (other ∈ MachineForm.handleOptionToggle optionId prev ↔ other ∈ prev)) ∧
  (NoDup prev → NoDup (MachineForm.handleOptionToggle optionId prev)) ∧
  (optionId ∉ prev →
   MachineForm.handleOptionToggle optionId
     (MachineForm.handleOptionToggle optionId prev) = prev) ∧
  (NoDup prev → optionId ∈ prev →
   MachineForm.handleOptionToggle optionId
     (MachineForm.handleOptionToggle optionId prev) ≡ₚ prev).
Proof.
  assert (∀ l x, x ∈ List.filter (λ i, negb (bool_decide (i = optionId))) l
                 ↔ x ∈ l ∧ x ≠ optionId) as Hfil.
  { intros l x. rewrite !list_elem_of_In, filter_In, negb_true_iff.
    by rewrite bool_decide_eq_false. }
  assert (∀ l, optionId ∉ l →
            List.filter (λ i, negb (bool_decide (i = optionId))) l = l)
    as Hid.
  { induction l as [|x l IH]; simpl; intros H; [done|].
    apply not_elem_of_cons in H as [Hx Hl].
    rewrite bool_decide_eq_false_2 by done. simpl. f_equal. by apply IH. }
  assert (∀ l, NoDup l →
            NoDup (List.filter (λ i, negb (bool_decide (i = optionId))) l))
    as Hnd.
  { induction 1 as [|x l Hx Hl IH]; simpl; [constructor|].
    destruct (negb _); [|done]. constructor; [|done].
    rewrite Hfil. tauto. }
  unfold MachineForm.handleOptionToggle.
  split; [|split; [|split; [|split]]].
  - case_bool_decide as H.
    + rewrite Hfil. tauto.
    + rewrite elem_of_app, list_elem_of_singleton. tauto.
  - intros other Hne. case_bool_decide as H.
    + rewrite Hfil. tauto.
    + rewrite elem_of_app, list_elem_of_singleton. tauto.
  - intros Hprev. case_bool_decide as H; [by apply Hnd|].
    apply NoDup_app. split; [done|]. split; [|apply NoDup_singleton].
    intros x Hx Hx'. apply list_elem_of_singleton in Hx' as ->. done.
  - intros H. rewrite (bool_decide_eq_false_2 _ H).
    rewrite bool_decide_eq_true_2
      by (apply elem_of_app; right; apply list_elem_of_singleton; done).
    rewrite List.filter_app. simpl.
    rewrite bool_decide_eq_true_2 by done. simpl.
    rewrite app_nil_r. by apply Hid.
  - intros Hprev H. rewrite (bool_decide_eq_true_2 _ H).
    rewrite bool_decide_eq_false_2 by (rewrite Hfil; tauto).
    apply NoDup_Permutation.
    + apply NoDup_app. split; [by apply Hnd|].
      split; [|apply NoDup_singleton].
      intros x Hx Hx'. apply list_elem_of_singleton in Hx' as ->.
      apply Hfil in Hx. tauto.
    + done.
    + intros x. rewrite elem_of_app, Hfil, list_elem_of_singleton.
      destruct (decide (x = optionId)) as [->|]; tauto.
Qed.

Lemma handleOptionToggle_flips_witness :
  MachineForm.handleOptionToggle 3
    (MachineForm.handleOptionToggle 3 [1; 2]%Z) = [1; 2]%Z ∧
  NoDup (MachineForm.handleOptionToggle 2 [1; 2; 3]%Z).
Proof.
  split.
  - destruct (handleOptionToggle_flips 3 [1; 2]%Z) as (_ & _ & _ & H & _).
    apply H. intros Hin.
    repeat (apply elem_of_cons in Hin as [Hin|Hin]; [discriminate|]).
    by apply elem_of_nil in Hin.
  - destruct (handleOptionToggle_flips 2 [1; 2; 3]%Z) as (_ & _ & H & _).
    apply H.
    repeat (apply NoDup_cons; split;
            [intros Hin; repeat (apply elem_of_cons in Hin as [Hin|Hin];
                                 [discriminate|]);
             by apply elem_of_nil in Hin |]).
    apply NoDup_nil_2.
Defined.

End OptionToggleFacts.

(** ** More on the price-list import *)

Section ImportFacts.

Import PriceListImport.

Implicit Types (p r : gmap string JS.jsval) (st : State).

Lemma clean_review p : clean (review p) = clean p.
Proof.
  apply map_eq. intros key. rewrite !clean_lookup, review_lookup.
  by repeat case_bool_decide.
Qed.

Lemma clean_without_ui p : Aux.no_ui_fields p → clean p = p.
Proof.
  intros [H1 H2]. unfold clean.
  rewrite (delete_id p "_selected" H1). by apply delete_id.
Qed.

Lemma selected_review p : selected (review p) = JS.not_null (p !! "price").
Proof. unfold selected. by rewrite review_lookup. Qed.

Lemma filter_map_review (l : list (gmap string JS.jsval)) :
  List.filter selected (List.map review l)
  = List.map review (List.filter (λ p, JS.not_null (p !! "price")) l).
Proof.
  induction l as [|p l IH]; simpl; [done|].
  rewrite selected_review. destruct (JS.not_null _); simpl; by rewrite IH.
Qed.

Lemma clean_review_priced (l : list (gmap string JS.jsval)) :
  Forall Aux.no_ui_fields l →
  List.map clean
    (List.map review (List.filter (λ p, JS.not_null (p !! "price")) l))
  = List.filter (λ p, JS.not_null (p !! "price")) l.
Proof.
  induction 1 as [|p l Hp _ IH]; simpl; [done|].
  destruct (JS.not_null _); simpl; [|done].
  rewrite clean_review, clean_without_ui by done. by f_equal.
Qed.

Lemma str_or_nonempty (s : option string) (d : string) :
  d ≠ EmptyString → str_or s d ≠ EmptyString.
Proof.
  intros Hd. destruct s as [x|]; simpl; [|done]. by case_bool_decide.
Qed.

Lemma setProducts_same st : setProducts (products st) st = st.
Proof. by destruct st. Qed.

Lemma imap_at {A} (g : A → A) (idx : nat) (l : list A) (x : A) :
  l !! idx = Some x →
  imap (λ i y, if bool_decide (i = idx) then g y else y) l
  = take idx l ++ g x :: drop (S idx) l.
Proof.
  intros H. rewrite <-insert_take_drop by (by eapply lookup_lt_Some).
  apply list_eq. intros i. rewrite list_lookup_imap.
  destruct (decide (i = idx)) as [->|Hne].
  - rewrite list_lookup_insert_eq by (by eapply lookup_lt_Some).
    rewrite H. simpl. by rewrite bool_decide_eq_true_2.
  - rewrite list_lookup_insert_ne by done.
    destruct (l !! i); simpl; [|done]. by rewrite bool_decide_eq_false_2.
Qed.

Lemma imap_beyond {A} (g : A → A) (idx : nat) (l : list A) :
  (length l ≤ idx)%nat →
  imap (λ i y, if bool_decide (i = idx) then g y else y) l = l.
Proof.
  intros H. apply list_eq. intros i. rewrite list_lookup_imap.
  destruct (l !! i) eqn:E; simpl; [|done].
  apply lookup_lt_Some in E. rewrite bool_decide_eq_false_2; [done | lia].
Qed.

(** X20: loading a preview and confirming right away sends the parsed
    products whose price is not null, as they were parsed and in their
    order, together with the parsed payment conditions; the review fields
    added on load are taken off again on the way out.  When every price is
    null, nothing is sent. *)
Theorem load_then_confirm (toLowerCase : string → string)
    (fileName : string) (data : PreviewData)
    (server : ConfirmBody → Response ConfirmResult) st :
  JS.endsWith (toLowerCase fileName) ".pdf" = true →
  Forall Aux.no_ui_fields (pv_products data) →
  let loaded := handleFileUpload toLowerCase fileName (Ok data) st in
  let priced :=
    List.filter (λ p, JS.not_null (p !! "price")) (pv_products data) in
  (priced ≠ [] →
   (handleConfirm server loaded).2
   = Some {| body_products := priced;
             body_payment_conditions := payment_conditions data;
             body_replace_existing := replaceExisting st |}) ∧
  (priced = [] → (handleConfirm server loaded).2 = None).
Proof.
  intros Hpdf Hui loaded priced.
  assert (products loaded = List.map review (pv_products data)) as Hp.
  { subst loaded. unfold handleFileUpload. by rewrite Hpdf. }
  assert (conditions loaded = payment_conditions data) as Hc.
  { subst loaded. unfold handleFileUpload. by rewrite Hpdf. }
  assert (replaceExisting loaded = replaceExisting st) as Hr.
  { subst loaded. unfold handleFileUpload. by rewrite Hpdf. }
  assert (List.map clean (List.map review priced) = priced) as Hclean
    by (by apply clean_review_priced).
  unfold handleConfirm. rewrite Hp, filter_map_review. fold priced. split.
  - intros Hne. rewrite bool_decide_eq_false_2.
    + simpl. rewrite Hclean, Hc, Hr. by destruct (server _).
    + rewrite length_map. by destruct priced.
  - intros ->. done.
Qed.

Lemma load_then_confirm_witness :
  (handleConfirm Spec.accepting_server Aux.loaded_import).2
  = Some {| body_products := [Spec.priced_product];
            body_payment_conditions :=
              payment_conditions Spec.example_preview;
            body_replace_existing := true |}.
Proof.
  destruct (load_then_confirm JS.lower_latin1 "lista.pdf" Spec.example_preview
              Spec.accepting_server Spec.initial_import) as [H _].
  - reflexivity.
  - repeat constructor.
  - apply H. discriminate.
Defined.

(** X21: a click on a product's check box flips the selection of that
    product and changes nothing else: no other product, and no other field
    of the product.  The counter of selected products moves by exactly
    one; a click on an index beyond the list changes nothing; and two
    clicks restore every selection. *)
Theorem toggleProduct_flips (idx : nat) st :
  (∀ p, products st !! idx = Some p →
     ∃ p', products (toggleProduct idx st) !! idx = Some p' ∧
           selected p' = negb (selected p) ∧
           (∀ key : string, key ≠ "_selected" → p' !! key = p !! key) ∧
           selectedCount (toggleProduct idx st)
           = (if selected p then selectedCount st - 1
              else selectedCount st + 1)%nat) ∧
  (∀ k : nat, k ≠ idx →
     products (toggleProduct idx st) !! k = products st !! k) ∧
  ((length (products st) ≤ idx)%nat → toggleProduct idx st = st) ∧
  selected <$> products (toggleProduct idx (toggleProduct idx st))
  = selected <$> products st.
Proof.
  set (g := λ p, <["_selected" := JS.JBool (negb (selected p))]> p).
  assert (∀ p, selected (g p) = negb (selected p)) as Hg.
  { intros p. unfold g, selected at 1. by rewrite lookup_insert_eq. }
  assert (∀ s k, products (toggleProduct idx s) !! k
                 = (λ p, if bool_decide (k = idx) then g p else p)
                   <$> products s !! k) as Hlook.
  { intros s k. unfold toggleProduct. simpl. by rewrite list_lookup_imap. }
  split; [|split; [|split]].
  - intros p Hp. exists (g p). split; [|split; [|split]].
    + rewrite Hlook, Hp. simpl. by rewrite bool_decide_eq_true_2.
    + apply Hg.
    + intros key Hkey. unfold g. by rewrite lookup_insert_ne.
    + unfold selectedCount.
      assert (products (toggleProduct idx st)
              = take idx (products st) ++ g p :: drop (S idx) (products st))
        as -> by apply (imap_at g idx _ p Hp).
      pose proof (f_equal (λ x, length (List.filter selected x))
                    (take_drop_middle _ _ _ Hp)) as Hsplit.
      simpl in Hsplit. rewrite List.filter_app, length_app in Hsplit.
      rewrite <-Hsplit, List.filter_app, length_app. simpl. rewrite Hg.
      destruct (selected p); simpl; lia.
  - intros k Hk. rewrite Hlook. destruct (products st !! k); simpl; [|done].
    by rewrite bool_decide_eq_false_2.
  - intros H. unfold toggleProduct.
    assert (imap (λ i p, if bool_decide (i = idx)
                         then <["_selected" := JS.JBool (negb (selected p))]> p
                         else p) (products st) = products st) as ->
      by apply (imap_beyond g idx _ H).
    apply setProducts_same.
  - apply list_eq. intros k. rewrite !list_lookup_fmap, !Hlook.
    destruct (products st !! k) as [p|]; simpl; [|done].
    case_bool_decide; [|done]. by rewrite !Hg, negb_involutive.
Qed.

Lemma toggleProduct_flips_witness :
  selectedCount (toggleProduct 1 Aux.loaded_import) = 2%nat ∧
  toggleProduct 5 Aux.loaded_import = Aux.loaded_import.
Proof.
  destruct (toggleProduct_flips 1 Aux.loaded_import) as (H & _).
  destruct (H (review Spec.unpriced_product) eq_refl)
    as (p' & _ & _ & _ & Hcount).
  split; [exact Hcount|].
  destruct (toggleProduct_flips 5 Aux.loaded_import) as (_ & _ & H' & _).
  apply H'. simpl. lia.
Defined.

(** X22: the counter on the confirm button is the number of products that
    a confirmation sends.  Outside a running confirmation the button is
    disabled exactly when [handleConfirm] would send nothing; and after a
    reset the counter is zero and nothing can be confirmed. *)
Theorem selectedCount_is_sent
    (server : ConfirmBody → Response ConfirmResult) st :
  (∀ st' body,
     handleConfirm server st = (st', Some body) →
     length (body_products body) = selectedCount st ∧
     (0 < selectedCount st)%nat) ∧
  (step st ≠ confirming →
   (confirmDisabled st = true ↔ (handleConfirm server st).2 = None)) ∧
  selectedCount (reset st) = 0%nat ∧
  (handleConfirm server (reset st)).2 = None ∧
  replaceExisting (reset st) = replaceExisting st.
Proof.
  assert ((handleConfirm server st).2 = None ↔ selectedCount st = 0%nat)
    as Hnone.
  { unfold handleConfirm, selectedCount. case_bool_decide as H; simpl.
    - done.
    - destruct (server _); simpl; split; done. }
  split; [|split; [|split; [|split]]]; try done.
  - intros st' body H. unfold handleConfirm in H. fold (selectedCount st) in H.
    case_bool_decide as Hz; [by injection H|]. simpl in H.
    assert (body_products body
            = List.map clean (List.filter selected (products st))) as ->.
    { destruct (server _); by injection H as _ <-. }
    rewrite length_map. unfold selectedCount in *. split; [done | lia].
  - intros Hstep. rewrite Hnone. unfold confirmDisabled.
    rewrite orb_true_iff, bool_decide_eq_true.
    split; [|by right]. intros [H|H]; [|done]. by destruct (step st).
Qed.

Lemma selectedCount_is_sent_witness :
  selectedCount Aux.loaded_import = 1%nat ∧
  confirmDisabled Aux.loaded_import = false.
Proof.
  destruct (selectedCount_is_sent Spec.accepting_server Aux.loaded_import)
    as (Hlen & Hdis & _).
  split.
  - destruct (handleConfirm Spec.accepting_server Aux.loaded_import)
      as [st' [body|]] eqn:E; [|discriminate E].
    destruct (Hlen st' body eq_refl) as [<- _].
    injection E as _ <-. reflexivity.
  - destruct Hdis as [Hto _]; [discriminate|].
    destruct (confirmDisabled Aux.loaded_import); [|reflexivity].
    discriminate (Hto eq_refl).
Defined.

(** X23: [handleConfirm] never changes the review list, the conditions,
    the replace flag or the loaded preview, whatever the server answers.
    When a request was sent: an ok answer ends in the step done with the
    result stored and no error; any other answer returns to the preview
    step with the result as before and an error message that is not
    empty. *)
Theorem handleConfirm_frame
    (server : ConfirmBody → Response ConfirmResult) st :
  let st' := (handleConfirm server st).1 in
  products st' = products st ∧ conditions st' = conditions st ∧
  replaceExisting st' = replaceExisting st ∧ preview st' = preview st ∧
  (∀ body res,
     (handleConfirm server st).2 = Some body → server body = Ok res →
     step st' = done ∧ result st' = Some res ∧ error st' = None) ∧
  (∀ body,
     (handleConfirm server st).2 = Some body →
     (∀ res, server body ≠ Ok res) →
     step st' = preview_step ∧ result st' = result st ∧
     ∃ msg, error st' = Some msg ∧ msg ≠ EmptyString).
Proof.
  intros st'. subst st'. unfold handleConfirm.
  case_bool_decide as Hz; simpl.
  - repeat split; try done; intros; done.
  - match goal with
    | |- context [server ?b] => set (body := b); destruct (server body) eqn:E
    end; simpl; (do 4 (split; [done|])); split.
    + intros b res [= <-] Hres. rewrite E in Hres. by injection Hres as ->.
    + intros b [= <-] Hno. by destruct (Hno data).
    + intros b res [= <-] Hres. congruence.
    + intros b _ _. split; [done|]. split; [done|]. eexists. split; [done|].
      by case_bool_decide.
    + intros b res [= <-] Hres. congruence.
    + intros b _ _. split; [done|]. split; [done|]. eexists. split; [done|].
      by case_bool_decide.
Qed.

Lemma handleConfirm_frame_witness :
  step (handleConfirm Aux.rejecting_server Aux.loaded_import).1
  = preview_step ∧
  error (handleConfirm Aux.rejecting_server Aux.loaded_import).1
  = Some "Lista inválida"%string ∧
  step (handleConfirm Spec.accepting_server Aux.loaded_import).1 = done.
Proof.
  destruct (handleConfirm_frame Aux.rejecting_server Aux.loaded_import)
    as (_ & _ & _ & _ & _ & Hbad).
  destruct (handleConfirm Aux.rejecting_server Aux.loaded_import).2
    as [body|] eqn:E; [|discriminate E].
  destruct (Hbad body eq_refl) as (Hstep & _ & _); [discriminate|].
  split; [exact Hstep|]. split; [reflexivity|].
  destruct (handleConfirm_frame Spec.accepting_server Aux.loaded_import)
    as (_ & _ & _ & _ & Hok & _).
  destruct (handleConfirm Spec.accepting_server Aux.loaded_import).2
    as [body'|] eqn:E'; [|discriminate E'].
  by destruct (Hok body' _ eq_refl eq_refl) as (Hdone & _).
Defined.

(** X24: an upload that fails keeps what was there.  A file whose name
    does not end in .pdf changes the error message only; a preview request that fails returns to the idle step
    with an error message that is not empty, and leaves the products, the
    conditions and the preview of an earlier load as they were. *)
Theorem upload_failure_keeps_state (toLowerCase : string → string)
    (fileName : string) (response : Response PreviewData) st :
  let st' := handleFileUpload toLowerCase fileName response st in
  (JS.endsWith (toLowerCase fileName) ".pdf" = false →
   st' = {| step := step st; preview := preview st; products := products st;
            conditions := conditions st;
            replaceExisting := replaceExisting st; result := result st;
            error := Some "El archivo debe ser un PDF" |}) ∧
  (JS.endsWith (toLowerCase fileName) ".pdf" = true →
   (∀ data, response ≠ Ok data) →
   step st' = idle ∧ products st' = products st ∧
   conditions st' = conditions st ∧ preview st' = preview st ∧
   result st' = result st ∧
   ∃ msg, error st' = Some msg ∧ msg ≠ EmptyString).
Proof.
  intros st'. subst st'. unfold handleFileUpload. split.
  - intros ->. done.
  - intros -> Hno. simpl. destruct response as [data| |]; simpl.
    + by destruct (Hno data).
    + do 5 (split; [done|]). eexists. split; [done|].
      by case_bool_decide.
    + do 5 (split; [done|]). eexists. split; [done|].
      by case_bool_decide.
Qed.

Lemma upload_failure_keeps_state_witness :
  products (handleFileUpload JS.lower_latin1 "lista.pdf" (Thrown EmptyString)
              Aux.loaded_import)
  = products Aux.loaded_import ∧
  error (handleFileUpload JS.lower_latin1 "lista.pdf" (Thrown EmptyString) Aux.loaded_import)
  = Some "Error inesperado"%string ∧
  step (handleFileUpload JS.lower_latin1 "lista.txt" (Ok Spec.example_preview)
          Aux.loaded_import) = preview_step.
Proof.
  destruct (upload_failure_keeps_state JS.lower_latin1 "lista.pdf" (Thrown EmptyString)
              Aux.loaded_import) as [_ H].
  destruct H as (_ & Hp & _); [reflexivity | discriminate |].
  split; [exact Hp|]. split; [reflexivity|].
  destruct (upload_failure_keeps_state JS.lower_latin1 "lista.txt" (Ok Spec.example_preview)
              Aux.loaded_import) as [H _].
  rewrite H; reflexivity.
Defined.

(** X25: editing a price does not touch the selection.  The price input
    stores the parsed number, or null when the text does not parse or
    parses to 0; the edit changes the price field of that product only;
    every product keeps its selection mark.  So a selected product whose
    price is cleared is still sent on confirmation, with price null. *)
Theorem price_edit_keeps_selection (idx : nat) (parsed : JS.number)
    (server : ConfirmBody → Response ConfirmResult) st :
  let st' := updateProduct idx "price" (priceInput parsed) st in
  selected <$> products st' = selected <$> products st ∧
  selectedCount st' = selectedCount st ∧
  (∀ p, products st !! idx = Some p →
     ∃ p', products st' !! idx = Some p' ∧
           p' !! "price" = Some (priceInput parsed) ∧
           ∀ key : string, key ≠ "price" → p' !! key = p !! key) ∧
  (∀ k : nat, k ≠ idx → products st' !! k = products st !! k) ∧
  (parsed = JS.NaN ∨ parsed = JS.Num 0 → priceInput parsed = JS.JNull) ∧
  (∀ p, products st !! idx = Some p → selected p = true →
     priceInput parsed = JS.JNull →
     ∃ body q, (handleConfirm server st').2 = Some body ∧
               q ∈ body_products body ∧ q !! "price" = Some JS.JNull).
Proof.
  intros st'.
  set (g := λ p : gmap string JS.jsval, <["price" := priceInput parsed]> p).
  assert (∀ p, selected (g p) = selected p) as Hg.
  { intros p. unfold g, selected. by rewrite lookup_insert_ne. }
  assert (∀ k, products st' !! k
               = (λ p, if bool_decide (k = idx) then g p else p)
                 <$> products st !! k) as Hlook.
  { intros k. subst st'. unfold updateProduct. simpl.
    by rewrite list_lookup_imap. }
  assert (selected <$> products st' = selected <$> products st) as Hsel.
  { apply list_eq. intros k. rewrite !list_lookup_fmap, Hlook.
    destruct (products st !! k) as [p|]; simpl; [|done].
    case_bool_decide; by rewrite ?Hg. }
  assert (∀ l1 l2 : list (gmap string JS.jsval),
            selected <$> l1 = selected <$> l2 →
            length (List.filter selected l1)
            = length (List.filter selected l2)) as Hcount.
  { induction l1 as [|a l1 IH]; intros [|b l2] H; simplify_eq/=; [done|].
    match goal with E : selected a = selected b |- _ => rewrite E end.
    destruct (selected b); simpl; auto. }
  split; [done|]. split; [by apply Hcount|].
  split; [|split; [|split]].
  - intros p Hp. exists (g p). split; [|split].
    + rewrite Hlook, Hp. simpl. by rewrite bool_decide_eq_true_2.
    + unfold g. by rewrite lookup_insert_eq.
    + intros key Hkey. unfold g. by rewrite lookup_insert_ne.
  - intros k Hk. rewrite Hlook. destruct (products st !! k); simpl; [|done].
    by rewrite bool_decide_eq_false_2.
  - intros [->| ->]; done.
  - intros p Hp Hs Hnull.
    assert (g p ∈ List.filter selected (products st')) as Hin.
    { apply list_elem_of_In, filter_In. split; [|by rewrite Hg].
      apply list_elem_of_In, list_elem_of_lookup. exists idx.
      rewrite Hlook, Hp. simpl. by rewrite bool_decide_eq_true_2. }
    unfold handleConfirm. rewrite bool_decide_eq_false_2.
    2: { intros Hlen. apply nil_length_inv in Hlen. rewrite Hlen in Hin.
         by apply elem_of_nil in Hin. }
    eexists _, (clean (g p)). split.
    + simpl. by destruct (server _).
    + split.
      * simpl. apply list_elem_of_fmap. eauto.
      * rewrite clean_lookup. simpl. unfold g.
        by rewrite lookup_insert_eq, Hnull.
Qed.

Lemma price_edit_keeps_selection_witness :
  ∃ body q,
    (handleConfirm Spec.accepting_server
       (updateProduct 0 "price" (priceInput JS.NaN) Aux.loaded_import)).2
    = Some body ∧
    q ∈ body_products body ∧ q !! "price" = Some JS.JNull.
Proof.
  destruct (price_edit_keeps_selection 0 JS.NaN Spec.accepting_server
              Aux.loaded_import) as (_ & _ & _ & _ & _ & H).
  apply (H (review Spec.priced_product)); reflexivity.
Defined.

End ImportFacts.

(** ** Paging of the quotation history *)

Section PagingFacts.

Import QuotationsPanel.









End PagingFacts.

(** ** The admin token and the exchange-rate guard *)

Section TokenFacts.

Implicit Types (localStorage : gmap string string).

(** X27: the token is stored and read back under one key.  After
    [setAuthToken] the token read is the one stored and the requests carry
    it as a Bearer authorization, unless it is the empty string, which
    gives no header; after [removeAuthToken] there is no token and no
    header, whatever was stored before; no other key of the storage is
    touched. *)
Theorem token_round_trip (token : string) localStorage :
  Api.getAuthToken (Api.setAuthToken token localStorage) = Some token ∧
  Api.getAuthToken (Api.removeAuthToken localStorage) = None ∧
  (token ≠ EmptyString →
   Api.getAuthHeaders (Api.setAuthToken token localStorage)
   = {[ "Authorization" := "Bearer " +:+ token ]}) ∧
  Api.getAuthHeaders (Api.setAuthToken EmptyString localStorage) = ∅ ∧
  Api.getAuthHeaders (Api.removeAuthToken localStorage) = ∅ ∧
  Api.removeAuthToken (Api.setAuthToken token localStorage)
  = Api.removeAuthToken localStorage ∧
  (∀ key : string, key ≠ "admin_token" →
     Api.setAuthToken token localStorage !! key = localStorage !! key ∧
     Api.removeAuthToken localStorage !! key = localStorage !! key).
Proof.
  unfold Api.getAuthHeaders, Api.getAuthToken, Api.setAuthToken,
    Api.removeAuthToken.
  rewrite !lookup_insert_eq, lookup_delete_eq.
  split; [done|]. split; [done|]. split.
  { intros H. by rewrite bool_decide_eq_false_2. }
  split; [done|]. split; [done|]. split; [apply delete_insert_eq|].
  intros key H. by rewrite lookup_insert_ne, lookup_delete_ne.
Qed.

Lemma token_round_trip_witness :
  Api.getAuthHeaders (Api.setAuthToken "abc" ∅)
  = {[ "Authorization" := "Bearer abc" ]}.
Proof.
  destruct (token_round_trip "abc" ∅) as (_ & _ & H & _).
  apply H. discriminate.
Defined.

(** X28: a manual exchange rate is sent only when it parses to a number
    above zero, and then the rate sent is the parsed number: text that
    does not parse, 0 and negative numbers are refused with the error
    message. *)
Theorem manual_rate_guard (parseFloat : string → JS.number)
    (manualRate : string) :
  (∀ rate,
     SettingsPanel.manualRateRequest parseFloat manualRate = inr rate →
     0 < rate ∧ parseFloat manualRate = JS.Num rate) ∧
  (∀ v, parseFloat manualRate = JS.Num v → 0 < v →
        SettingsPanel.manualRateRequest parseFloat manualRate = inr v) ∧
  (parseFloat manualRate = JS.NaN ∨
   (∃ v, parseFloat manualRate = JS.Num v ∧ v ≤ 0) →
   SettingsPanel.manualRateRequest parseFloat manualRate
   = inl "Ingresá un valor válido"%string).
Proof.
  unfold SettingsPanel.manualRateRequest. split; [|split].
  - intros rate H. destruct (parseFloat manualRate) as [|v]; [done|].
    destruct (_ || _) eqn:E; [done|]. injection H as <-.
    apply orb_false_iff in E as [_ E]. apply bool_decide_eq_false in E.
    split; [by apply Qcnot_le_lt | done].
  - intros v -> Hv. rewrite orb_false_intro; [done| |].
    + simpl. rewrite bool_decide_eq_false_2; [done|].
      intros ->. by apply Qclt_not_eq in Hv.
    + apply bool_decide_eq_false. by apply Qclt_not_le.
  - intros [-> | (v & -> & Hv)]; [done|].
    by rewrite (bool_decide_eq_true_2 _ Hv), orb_true_r.
Qed.

Lemma manual_rate_guard_witness :
  SettingsPanel.manualRateRequest (λ _, JS.Num (JS.num 1450)) "1450"
  = inr (JS.num 1450) ∧
  SettingsPanel.manualRateRequest (λ _, JS.Num (JS.num (-3))) "-3"
  = inl "Ingresá un valor válido"%string.
Proof.
  split.
  - destruct (manual_rate_guard (λ _, JS.Num (JS.num 1450)) "1450")
      as (_ & H & _).
    apply H; [reflexivity | qc_eval].
  - destruct (manual_rate_guard (λ _, JS.Num (JS.num (-3))) "-3")
      as (_ & _ & H).
    apply H. right. exists (JS.num (-3)). split; [reflexivity | qc_eval].
Defined.

End TokenFacts.

(** ** Worked examples *)

Section Examples.

(** The searches below run with the lower case of Latin-1 text in the
    place of the built-in. *)
Example lower_latin1_example :
  JS.lower_latin1 "Tolva ATF-14 ÑANDÚ" = "tolva atf-14 ñandú"%string.
Proof. reflexivity. Qed.

Example search_by_code :
  MachineUtils.searchMachines JS.lower_latin1 "x2" Spec.example_catalog
  = [Spec.machine_of 2 "X2" (Some (JS.num 500))].
Proof. reflexivity. Qed.

Example search_by_category :
  MachineUtils.searchMachines JS.lower_latin1 "TOLV" Spec.example_catalog
  = Spec.example_catalog.
Proof. reflexivity. Qed.

Example search_without_match :
  MachineUtils.searchMachines JS.lower_latin1 "sembradora"
    Spec.example_catalog = [].
Proof. reflexivity. Qed.

Example search_accented_name :
  Types.code <$>
    MachineUtils.searchMachines JS.lower_latin1 "ÑANDÚ" Aux.accented_catalog
  = ["AC-12"%string] ∧
  Types.code <$>
    MachineUtils.searchMachines JS.lower_latin1 "ñandú" Aux.accented_catalog
  = ["AC-12"%string].
Proof. split; reflexivity. Qed.

Example lookup_is_case_sensitive :
  MachineUtils.findMachineByCode "x1" Spec.example_catalog = None ∧
  MachineUtils.findMachineByCode "X1" Spec.example_catalog
  = Some (Spec.machine_of 1 "X1" (Some (JS.num 1000))).
Proof. split; reflexivity. Qed.

(** Quantities after typing nothing, 0, -3 and 5 into the first line. *)
Example quantity_input_examples :
  let first_quantity value :=
    (λ it, this (App.quantity it)) <$>
      App.updateQuantityInput "X1-1700000000000" value Spec.example_items
        !! 0%nat in
  first_quantity JS.NaN = Some 1%Q ∧
  first_quantity (JS.Num (JS.num 0)) = Some 1%Q ∧
  first_quantity (JS.Num (JS.num (-3))) = Some 1%Q ∧
  first_quantity (JS.Num (JS.num 5)) = Some 5%Q.
Proof. repeat split; vm_compute; reflexivity. Qed.

(** The minus button never takes a quantity below one. *)
Example minus_button_example :
  (λ it, this (App.quantity it)) <$>
    App.adjustQuantity "X2-1700000000001" (JS.num (-1)) Spec.example_items
  = [2%Q; 1%Q].
Proof. vm_compute. reflexivity. Qed.

Example selecting_twice_increments :
  (λ it, (App.machineCode it, this (App.quantity it))) <$>
    App.handleMachineSelect "X3" 1700000000003
      (App.handleMachineSelect "X1" 1700000000002 Spec.example_items)
  = [("X1"%string, 3%Q); ("X2"%string, 1%Q); ("X3"%string, 1%Q)].
Proof. vm_compute. reflexivity. Qed.

Example file_name_check :
  PriceListImport.error
    (PriceListImport.handleFileUpload JS.lower_latin1 "lista.docx"
       (PriceListImport.Ok Spec.example_preview) Spec.initial_import)
  = Some "El archivo debe ser un PDF"%string.
Proof. reflexivity. Qed.

End Examples.
